(** * serverless-managers: the pool engine of [lib/managers/base.js] and the
      process adapter of [lib/managers/process.js]

    The JavaScript classes are embedded as state-passing functions.  The
    manager object is the record [Manager]; everything the methods do to the
    outside world (interval timers, signal listeners of the Node process,
    children spawned and terminated, the [onShutdown] hook) is logged in the
    record [Host].  Numbers are integers ([Z]); [Date.now()] is an argument of
    every method that reads the clock.  An [async] method is embedded as the
    function it computes when nothing else runs between its awaits; the one
    await the acquisition path can be overtaken at ([await createProcess]) is
    split into two segments. *)

From Stdlib Require Import ZArith Lia Ascii String.
From stdpp Require Import base list strings pretty.

Open Scope Z_scope.

(** ** Data model *)

(** The three events [setupShutdownHandlers] subscribes to. *)
Inductive Signal := SIGINT | SIGTERM | beforeExit.

#[global] Instance Signal_eq_dec : EqDecision Signal.
Proof. solve_decision. Defined.

(** The subclasses whose code is modelled: [FakeManager] is the minimal
    subclass of the base class used by its unit tests (it inherits every
    engine method and overrides only the adapter ones), [ProcessManager] is
    [lib/managers/process.js]. Of [K8sManager], whose adapter talks to a
    cluster, the one engine method it overrides with different effects on
    the engine's state is modelled: the eviction callback,
    [K8sManager_watcherTick] below. *)
Inductive ManagerClass := FakeManager | ProcessManager.

(** What the engine reads of a child process handle. *)
Record ChildProcess := mkChild { pid : Z; killed : bool }.

(** A pooled resource: [{ name, port, process, createdAt, lastUsed }]. *)
Record ResourceInfo := mkResource {
  name : string;
  port : Z;
  process : option ChildProcess;
  createdAt : Z;
  lastUsed : Z
}.

(** [this.metrics] *)
Record Metrics := mkMetrics {
  requests : Z;
  hits : Z;
  misses : Z;
  additions : Z;
  evictions : Z;
  removals : Z
}.

(** The constructor's [options] object; [None] is an absent key. *)
Record Options := mkOptions {
  opt_maxPoolSize : option Z;
  opt_poolCheckInterval : option Z;
  opt_shutdownTimeout : option Z
}.

(** The fields of a manager object. [watcherInterval] holds the id of the
    interval timer, [None] is JavaScript's [null]. *)
Record Manager := mkManager {
  cls : ManagerClass;
  maxPoolSize : Z;
  poolCheckInterval : Z;
  shutdownTimeout : Z;
  pool : list ResourceInfo;
  lastRequestTime : Z;
  watcherStarted : bool;
  watcherInterval : option nat;
  isShuttingDown : bool;
  metrics : Metrics
}.

(** The world outside the manager object.
    - [timersCreated]: how many times [setInterval] was called (the next
      timer id);
    - [activeTimers]: ids of the intervals not cleared yet;
    - [listeners]: the handlers registered on the Node process;
    - [terminated]: names handed to [terminateResource], in call order;
    - [spawned]: names handed to [createProcess], in call order;
    - [shutdownHookCalls]: how many times [onShutdown] ran. *)
Record Host := mkHost {
  timersCreated : nat;
  activeTimers : list nat;
  listeners : list Signal;
  terminated : list string;
  spawned : list string;
  shutdownHookCalls : nat
}.

Definition World : Type := Manager * Host.

(** ** Field updates *)

Definition set_pool (p : list ResourceInfo) (m : Manager) : Manager :=
  mkManager (cls m) (maxPoolSize m) (poolCheckInterval m) (shutdownTimeout m)
    p (lastRequestTime m) (watcherStarted m) (watcherInterval m)
    (isShuttingDown m) (metrics m).

Definition set_lastRequestTime (t : Z) (m : Manager) : Manager :=
  mkManager (cls m) (maxPoolSize m) (poolCheckInterval m) (shutdownTimeout m)
    (pool m) t (watcherStarted m) (watcherInterval m)
    (isShuttingDown m) (metrics m).

Definition set_watcherStarted (b : bool) (m : Manager) : Manager :=
  mkManager (cls m) (maxPoolSize m) (poolCheckInterval m) (shutdownTimeout m)
    (pool m) (lastRequestTime m) b (watcherInterval m)
    (isShuttingDown m) (metrics m).

Definition set_watcherInterval (i : option nat) (m : Manager) : Manager :=
  mkManager (cls m) (maxPoolSize m) (poolCheckInterval m) (shutdownTimeout m)
    (pool m) (lastRequestTime m) (watcherStarted m) i
    (isShuttingDown m) (metrics m).

Definition set_isShuttingDown (b : bool) (m : Manager) : Manager :=
  mkManager (cls m) (maxPoolSize m) (poolCheckInterval m) (shutdownTimeout m)
    (pool m) (lastRequestTime m) (watcherStarted m) (watcherInterval m)
    b (metrics m).

Definition set_maxPoolSize (n : Z) (m : Manager) : Manager :=
  mkManager (cls m) n (poolCheckInterval m) (shutdownTimeout m)
    (pool m) (lastRequestTime m) (watcherStarted m) (watcherInterval m)
    (isShuttingDown m) (metrics m).

Definition set_metrics (x : Metrics) (m : Manager) : Manager :=
  mkManager (cls m) (maxPoolSize m) (poolCheckInterval m) (shutdownTimeout m)
    (pool m) (lastRequestTime m) (watcherStarted m) (watcherInterval m)
    (isShuttingDown m) x.

(** [this.metrics.requests++] and its five siblings. *)
Definition inc_requests (m : Manager) : Manager :=
  let x := metrics m in
  set_metrics (mkMetrics (requests x + 1) (hits x) (misses x) (additions x)
                 (evictions x) (removals x)) m.

Definition inc_hits (m : Manager) : Manager :=
  let x := metrics m in
  set_metrics (mkMetrics (requests x) (hits x + 1) (misses x) (additions x)
                 (evictions x) (removals x)) m.

Definition inc_misses (m : Manager) : Manager :=
  let x := metrics m in
  set_metrics (mkMetrics (requests x) (hits x) (misses x + 1) (additions x)
                 (evictions x) (removals x)) m.

Definition inc_additions (m : Manager) : Manager :=
  let x := metrics m in
  set_metrics (mkMetrics (requests x) (hits x) (misses x) (additions x + 1)
                 (evictions x) (removals x)) m.

Definition inc_evictions (m : Manager) : Manager :=
  let x := metrics m in
  set_metrics (mkMetrics (requests x) (hits x) (misses x) (additions x)
                 (evictions x + 1) (removals x)) m.

Definition inc_removals (m : Manager) : Manager :=
  let x := metrics m in
  set_metrics (mkMetrics (requests x) (hits x) (misses x) (additions x)
                 (evictions x) (removals x + 1)) m.

(** ** The host: timers, listeners, adapter calls *)

Definition empty_host : Host := mkHost 0 [] [] [] [] 0.

(** [setInterval(cb, ms)]: a fresh timer id, now active. *)
Definition setInterval (h : Host) : nat * Host :=
  let id := timersCreated h in
  (id, mkHost (S id) (id :: activeTimers h) (listeners h) (terminated h)
         (spawned h) (shutdownHookCalls h)).

(** [clearInterval(id)] *)
Definition clearInterval (id : nat) (h : Host) : Host :=
  mkHost (timersCreated h) (filter (λ j, j ≠ id) (activeTimers h))
    (listeners h) (terminated h) (spawned h)
    (shutdownHookCalls h).

(** [process.once(sig, shutdownHandler)] *)
Definition process_once (sig : Signal) (h : Host) : Host :=
  mkHost (timersCreated h) (activeTimers h) (listeners h ++ [sig])
    (terminated h) (spawned h) (shutdownHookCalls h).

(** [process.removeAllListeners(sig)] *)
Definition removeAllListeners (sig : Signal) (h : Host) : Host :=
  mkHost (timersCreated h) (activeTimers h)
    (filter (λ s, s ≠ sig) (listeners h))
    (terminated h) (spawned h) (shutdownHookCalls h).

(** [terminateResource(resourceInfo)]: every adapter catches its own errors,
    so the call always completes; the engine only sees that it was made. *)
Definition terminateResource (r : ResourceInfo) (h : Host) : Host :=
  mkHost (timersCreated h) (activeTimers h) (listeners h)
    (terminated h ++ [name r]) (spawned h) (shutdownHookCalls h).

(** [createProcess(scriptPath, port, processName)] is called: the child is
    spawned and the promise is pending. *)
Definition spawn (nm : string) (h : Host) : Host :=
  mkHost (timersCreated h) (activeTimers h) (listeners h) (terminated h)
    (spawned h ++ [nm]) (shutdownHookCalls h).

(** [onShutdown()]: the hook runs (a no-op in the base class, a flag in
    [FakeManager]); the host counts the invocations. *)
Definition onShutdown (h : Host) : Host :=
  mkHost (timersCreated h) (activeTimers h) (listeners h) (terminated h)
    (spawned h) (S (shutdownHookCalls h)).

(** ** Adapter methods, by class *)

(** [getResourceType()] *)
Definition getResourceType (c : ManagerClass) : string :=
  match c with
  | FakeManager => "test"
  | ProcessManager => "process"
  end.

(** [this.constructor.name] *)
Definition constructor_name (c : ManagerClass) : string :=
  match c with
  | FakeManager => "FakeManager"
  | ProcessManager => "ProcessManager"
  end.

(** [isResourceAlive(resourceInfo)]: [FakeManager] treats names starting with
    [alive] as alive; [ProcessManager] asks
    [processInfo.process && !processInfo.process.killed]. *)
Definition isResourceAlive (c : ManagerClass) (r : ResourceInfo) : bool :=
  match c with
  | FakeManager => String.prefix "alive" (name r)
  | ProcessManager =>
      match process r with
      | Some child => negb (killed child)
      | None => false
      end
  end.

(** ** The engine: [BaseServerlessManager] *)

(** JavaScript's [options.key || fallback] on a number: an absent key and the
    number 0 are both falsy. *)
Definition or_default (o : option Z) (fallback : Z) : Z :=
  match o with
  | Some 0 => fallback
  | Some n => n
  | None => fallback
  end.

Definition zero_metrics : Metrics := mkMetrics 0 0 0 0 0 0.

(** [setupShutdownHandlers()] *)
Definition setupShutdownHandlers (h : Host) : Host :=
  process_once beforeExit (process_once SIGTERM (process_once SIGINT h)).

(** [constructor(options)] of the base class, run for an object of class
    [c] at time [now]. *)
Definition BaseServerlessManager_new
    (c : ManagerClass) (o : Options) (now : Z) (h : Host) : World :=
  (mkManager c
     (or_default (opt_maxPoolSize o) 3)
     (or_default (opt_poolCheckInterval o) 10000)
     (or_default (opt_shutdownTimeout o) 10000)
     [] now false None false zero_metrics,
   setupShutdownHandlers h).

(** [ProcessManager]'s constructor: [super(options)], then its own default
    for [shutdownTimeout]. ([processTimeout] bounds the real-time wait for
    the child's first output and has no counterpart here.) *)
Definition ProcessManager_new (o : Options) (now : Z) (h : Host) : World :=
  let '(m, h') := BaseServerlessManager_new ProcessManager o now h in
  (mkManager (cls m) (maxPoolSize m) (poolCheckInterval m)
     (or_default (opt_shutdownTimeout o) 5000)
     (pool m) (lastRequestTime m) (watcherStarted m) (watcherInterval m)
     (isShuttingDown m) (metrics m), h').

(** [new C(options)] *)
Definition new_manager (c : ManagerClass) (o : Options) (now : Z) : World :=
  match c with
  | FakeManager => BaseServerlessManager_new FakeManager o now empty_host
  | ProcessManager => ProcessManager_new o now empty_host
  end.

(** [updateLastRequestTime()] *)
Definition updateLastRequestTime (now : Z) (m : Manager) : Manager :=
  set_lastRequestTime now m.

(** [getPoolSize()] *)
Definition getPoolSize (m : Manager) : Z := Z.of_nat (length (pool m)).

(** [canCreateNewResource()] *)
Definition canCreateNewResource (m : Manager) : bool :=
  getPoolSize m <? maxPoolSize m.

(** [clearPool()] *)
Definition clearPool (now : Z) (m : Manager) : Manager :=
  updateLastRequestTime now (set_pool [] m).

(** [addToPool(resourceInfo)] *)
Definition addToPool (r : ResourceInfo) (m : Manager) : bool * Manager :=
  if Z.of_nat (length (pool m)) <? maxPoolSize m
  then (true, inc_additions (set_pool (pool m ++ [r]) m))
  else (false, m).

(** [removeFromPool(resourceName)]: [findIndex] is [list_find],
    [splice(index, 1)] is [delete index]. *)
Definition removeFromPool (nm : string) (m : Manager)
    : option ResourceInfo * Manager :=
  match list_find (λ r, name r = nm) (pool m) with
  | Some (index, removed) =>
      (Some removed, inc_removals (set_pool (delete index (pool m)) m))
  | None => (None, m)
  end.

(** [arr[i]] for a number [i]: [undefined] outside the array, also for a
    negative index. *)
Definition js_index {A} (l : list A) (i : Z) : option A :=
  if i <? 0 then None else l !! Z.to_nat i.

(** [selectFromPool()]: [Math.floor(Date.now() / 1000)] is [now / 1000]
    ([Z.div] rounds down), [%] is the truncating remainder [Z.rem]. *)
Definition selectFromPool (now : Z) (m : Manager)
    : option ResourceInfo * Manager :=
  let m1 := inc_requests m in
  if Z.of_nat (length (pool m1)) =? 0
  then (None, inc_misses m1)
  else
    let resourceIndex := Z.rem (now / 1000) (Z.of_nat (length (pool m1))) in
    (js_index (pool m1) resourceIndex, inc_hits m1).

(** [poolWatcher()]: installs the interval unless one is installed. *)
Definition poolWatcher (w : World) : World :=
  let '(m, h) := w in
  match watcherInterval m with
  | Some _ => w
  | None =>
      let '(id, h') := setInterval h in
      (set_watcherInterval (Some id) m, h')
  end.

(** The callback handed to [setInterval]: one tick of the eviction timer.
    [pool.shift()] takes the first element. *)
Definition watcherTick (now : Z) (w : World) : World :=
  let '(m, h) := w in
  if isShuttingDown m then w
  else if (0 <? Z.of_nat (length (pool m)))
          && (poolCheckInterval m <? now - lastRequestTime m)
  then
    match pool m with
    | resourceToRemove :: rest =>
        (inc_evictions (set_pool rest m), terminateResource resourceToRemove h)
    | [] => w
    end
  else w.

(** [K8sManager] overrides [poolWatcher()] so that the callback calls
    [terminatePod] (which is [terminateResource]; what it throws is caught
    and logged). This is the callback of that override. It reads and writes
    the engine's fields only, so it is given on the same state. *)
Definition K8sManager_watcherTick (now : Z) (w : World) : World :=
  let '(m, h) := w in
  if isShuttingDown m then w
  else if (0 <? Z.of_nat (length (pool m)))
          && (poolCheckInterval m <? now - lastRequestTime m)
  then
    match pool m with
    | podToRemove :: rest =>
        (set_pool rest m, terminateResource podToRemove h)
    | [] => w
    end
  else w.

(** [startPoolWatcher()] *)
Definition startPoolWatcher (w : World) : World :=
  let '(m, h) := w in
  if watcherStarted m then w
  else poolWatcher (set_watcherStarted true m, h).

(** [stopPoolWatcher()] *)
Definition stopPoolWatcher (w : World) : World :=
  let '(m, h) := w in
  match watcherInterval m with
  | Some id => (set_watcherInterval None m, clearInterval id h)
  | None => w
  end.

(** [stopAllResources()], and [ProcessManager]'s [stopAllProcesses()], which
    differs only in what it logs: every pooled resource is handed to
    [terminateResource], then the pool is cleared. *)
Definition stopAllResources (now : Z) (w : World) : World :=
  let '(m, h) := w in
  match pool m with
  | [] => w
  | _ => (clearPool now m,
          foldl (λ acc r, terminateResource r acc) h (pool m))
  end.

Definition removeSignalListeners (h : Host) : Host :=
  removeAllListeners beforeExit
    (removeAllListeners SIGTERM (removeAllListeners SIGINT h)).

(** [shutdown()] of the base class. *)
Definition BaseServerlessManager_shutdown (now : Z) (w : World) : World :=
  if isShuttingDown (fst w) then w
  else
    let '(m1, h1) := stopPoolWatcher (set_isShuttingDown true (fst w), snd w) in
    let '(m2, h2) := stopAllResources now (m1, h1) in
    let h3 := removeSignalListeners h2 in
    (m2, onShutdown h3).

(** [shutdown()] as overridden in [ProcessManager]. *)
Definition ProcessManager_shutdown (now : Z) (w : World) : World :=
  if isShuttingDown (fst w) then w
  else
    let '(m1, h1) := stopPoolWatcher (set_isShuttingDown true (fst w), snd w) in
    let '(m2, h2) := stopAllResources now (m1, h1) in
    (m2, removeSignalListeners h2).

(** [mgr.shutdown()]: method lookup by the object's class. *)
Definition shutdown (now : Z) (w : World) : World :=
  match cls (fst w) with
  | FakeManager => BaseServerlessManager_shutdown now w
  | ProcessManager => ProcessManager_shutdown now w
  end.

(** ** Health check *)

(** What [healthCheck()] returns: [total<Type>s], [dead<Type>sRemoved],
    [healthy]. *)
Record HealthReport := mkReport {
  total : Z;
  deadRemoved : Z;
  healthy : bool
}.

(** The loop [for (let i = pool.length - 1; i >= 0; i--)], entered with
    [k = i + 1]. Reading [pool[i]] past the end gives [undefined], on which
    every adapter's probe throws: [None]. *)
Fixpoint healthCheck_loop (c : ManagerClass) (k : nat)
    (p dead : list ResourceInfo) : option (list ResourceInfo * list ResourceInfo) :=
  match k with
  | O => Some (p, dead)
  | S i =>
      match p !! i with
      | None => None
      | Some resourceInfo =>
          if isResourceAlive c resourceInfo
          then healthCheck_loop c i p dead
          else healthCheck_loop c i (delete i p) (dead ++ [resourceInfo])
      end
  end.

(** [healthCheck()], the same text in the base class and in
    [ProcessManager]. *)
Definition healthCheck (m : Manager) : option (HealthReport * Manager) :=
  match healthCheck_loop (cls m) (length (pool m)) (pool m) [] with
  | None => None
  | Some (p, deadResources) =>
      let m' := set_pool p m in
      Some (mkReport (Z.of_nat (length p))
              (Z.of_nat (length deadResources))
              ((0 <? Z.of_nat (length p)) || negb (isShuttingDown m')),
            m')
  end.

(** ** Metrics exposition *)

Definition dquote : string := String "034"%char EmptyString.
Definition newline : string := String "010"%char EmptyString.

(** [getMetrics()]: a copy of the counters. *)
Definition getMetrics (m : Manager) : Metrics := metrics m.

(** The template [{resource_type="${type}",manager="${this.constructor.name}"}]. *)
Definition metric_labels (c : ManagerClass) : string :=
  "{resource_type=" +:+ dquote +:+ getResourceType c +:+ dquote +:+
  ",manager=" +:+ dquote +:+ constructor_name c +:+ dquote +:+ "}".

Definition metric_prefix : string := "serverless_manager_pool".

(** The helper [addMetric(name, help, type, value)], pushing three lines. *)
Definition addMetric (labels nm help type : string) (value : Z)
    (lines : list string) : list string :=
  let metricName := metric_prefix +:+ "_" +:+ nm in
  lines ++ [ "# HELP " +:+ metricName +:+ " " +:+ help;
             "# TYPE " +:+ metricName +:+ " " +:+ type;
             metricName +:+ labels +:+ " " +:+ pretty value ].

Definition metric_lines (m : Manager) : list string :=
  let x := getMetrics m in
  let labels := metric_labels (cls m) in
  let l0 := [] in
  let l1 := addMetric labels "requests_total"
              "Total number of pool acquisition requests" "counter" (requests x) l0 in
  let l2 := addMetric labels "hits_total"
              "Total number of successful pool hits" "counter" (hits x) l1 in
  let l3 := addMetric labels "misses_total"
              "Total number of pool misses" "counter" (misses x) l2 in
  let l4 := addMetric labels "additions_total"
              "Total number of resources added to pool" "counter" (additions x) l3 in
  let l5 := addMetric labels "evictions_total"
              "Total number of idle resources evicted" "counter" (evictions x) l4 in
  let l6 := addMetric labels "removals_total"
              "Total number of resources removed from pool" "counter" (removals x) l5 in
  addMetric labels "size"
    "Current number of resources in pool" "gauge" (Z.of_nat (length (pool m))) l6.

(** [getPrometheusMetrics()] *)
Definition getPrometheusMetrics (m : Manager) : string :=
  String.concat newline (metric_lines m).

(** ** Acquisition: [ProcessManager.getOrCreateProcessInPool] *)

(** The three errors the method throws. *)
Inductive AcquireError := ShuttingDown | BadConfig | NoResource.

Definition error_message (e : AcquireError) : string :=
  match e with
  | ShuttingDown => "ProcessManager is shutting down"
  | BadConfig => "Script path is required"
  | NoResource => "No processes available in pool"
  end.

Inductive AcquireResult :=
  | Returned (r : ResourceInfo)
  | Thrown (e : AcquireError).

(** Where the first segment of the method ends: it threw, it called
    [createProcess] and awaits it, or it goes on to select from the pool. *)
Inductive AcquireBegin :=
  | BeginThrown (e : AcquireError)
  | BeginCreating (processName : string) (port : Z)
  | BeginSelecting.

(** [!scriptPath]: [undefined] and the empty string are falsy. *)
Definition falsy_path (scriptPath : option string) : bool :=
  match scriptPath with
  | None => true
  | Some s => bool_decide (s = "")
  end.

Definition set_lastUsed (t : Z) (r : ResourceInfo) : ResourceInfo :=
  mkResource (name r) (port r) (process r) (createdAt r) t.

(** First segment: from the entry of the method to [await createProcess].
    [freePort] is what [getAvailablePort()] answers ([None]: it rejects, which
    the [catch] block logs), [tname] the clock when the name is built. *)
Definition acquire_begin (scriptPath : option string) (now : Z)
    (freePort : option Z) (tname : Z) (w : World) : AcquireBegin * World :=
  if isShuttingDown (fst w) then (BeginThrown ShuttingDown, w)
  else if falsy_path scriptPath then (BeginThrown BadConfig, w)
  else
    let '(m1, h1) := startPoolWatcher (updateLastRequestTime now (fst w), snd w) in
    if canCreateNewResource m1 then
      match freePort with
      | Some p =>
          let processName := "process-" +:+ pretty p +:+ "-" +:+ pretty tname in
          (BeginCreating processName p, (m1, spawn processName h1))
      | None => (BeginSelecting, (m1, h1))
      end
    else (BeginSelecting, (m1, h1)).

(** Last segment: [selectFromPool()], the liveness probe and what follows.
    [selectedProcess.lastUsed = Date.now()] writes to the object that sits in
    the pool at the selected index. *)
Definition acquire_select (tsel tused : Z) (w : World) : AcquireResult * World :=
  let '(m, h) := w in
  let '(selected, m1) := selectFromPool tsel m in
  match selected with
  | Some selectedProcess =>
      if isResourceAlive (cls m1) selectedProcess
      then
        let i := Z.to_nat (Z.rem (tsel / 1000) (Z.of_nat (length (pool m1)))) in
        (Returned (set_lastUsed tused selectedProcess),
         (set_pool (alter (set_lastUsed tused) i (pool m1)) m1, h))
      else
        let '(_, m2) := removeFromPool (name selectedProcess) m1 in
        match pool m2 with
        | first :: _ => (Returned first, (m2, h))
        | [] => (Thrown NoResource, (m2, h))
        end
  | None => (Thrown NoResource, (m1, h))
  end.

(** Middle segment, when [createProcess] resolved with [processInfo]: the
    second [canCreateNewResource()] check, then admission, or termination of
    the new process and selection. *)
Definition acquire_created (processInfo : ResourceInfo) (tsel tused : Z)
    (w : World) : AcquireResult * World :=
  let '(m, h) := w in
  if canCreateNewResource m then
    let '(_, m1) := addToPool processInfo m in
    (Returned processInfo, (m1, h))
  else acquire_select tsel tused (m, terminateResource processInfo h).

(** What the environment answers during one acquisition. [childReady] is the
    child and the clock at its first output, [None] when [createProcess]
    rejects (spawn error or creation deadline). *)
Record AcquireEnv := mkAcquireEnv {
  t_request : Z;
  freePort : option Z;
  t_name : Z;
  childReady : option (ChildProcess * Z);
  t_select : Z;
  t_used : Z
}.

(** The object [createProcess] resolves with. *)
Definition processInfo_of (nm : string) (p : Z) (child : ChildProcess) (t : Z)
    : ResourceInfo :=
  mkResource nm p (Some child) t t.

(** The continuation after [await createProcess] settles. *)
Definition acquire_settled (nm : string) (p : Z)
    (outcome : option (ChildProcess * Z)) (tsel tused : Z) (w : World)
    : AcquireResult * World :=
  match outcome with
  | Some (child, t) => acquire_created (processInfo_of nm p child t) tsel tused w
  | None => acquire_select tsel tused w
  end.

(** [getOrCreateProcessInPool(scriptPath)], run without interruption. *)
Definition getOrCreateProcessInPool (scriptPath : option string)
    (e : AcquireEnv) (w : World) : AcquireResult * World :=
  match acquire_begin scriptPath (t_request e) (freePort e) (t_name e) w with
  | (BeginThrown err, w1) => (Thrown err, w1)
  | (BeginCreating nm p, w1) =>
      acquire_settled nm p (childReady e) (t_select e) (t_used e) w1
  | (BeginSelecting, w1) => acquire_select (t_select e) (t_used e) w1
  end.

(** ** Traces of operations *)

(** The operations that can run against a manager, each atomic. The two
    segments of an acquisition are separate operations, so that anything may
    run while a creation is in flight; [OpSplice] is one removal of a health
    check, for runs in which the check is itself overtaken. [OpPoolWatcher],
    [OpStopAllResources] and [OpUpdateLastRequestTime] are direct calls of
    the public methods [poolWatcher()], [stopAllResources()] and
    [updateLastRequestTime()], as the tests of the repository make. The
    acquisition method exists on [ProcessManager] objects only. *)
Inductive Op :=
  | OpAddToPool (r : ResourceInfo)
  | OpRemoveFromPool (nm : string)
  | OpSelectFromPool (now : Z)
  | OpStartPoolWatcher
  | OpStopPoolWatcher
  | OpPoolWatcher
  | OpTick (now : Z)
  | OpHealthCheck
  | OpSplice (i : nat)
  | OpClearPool (now : Z)
  | OpShutdown (now : Z)
  | OpAcquireBegin (scriptPath : option string) (now : Z)
      (port : option Z) (tname : Z)
  | OpAcquireSettled (k : nat) (outcome : option (ChildProcess * Z))
      (tsel tused : Z)
  | OpAcquire (scriptPath : option string) (e : AcquireEnv)
  | OpStopAllResources (now : Z)
  | OpUpdateLastRequestTime (now : Z).

(** A manager together with the creations in flight. *)
Definition Sys : Type := World * list (string * Z).

Definition step (op : Op) (s : Sys) : Sys :=
  let '((m, h), inflight) := s in
  match op with
  | OpAddToPool r => ((snd (addToPool r m), h), inflight)
  | OpRemoveFromPool nm => ((snd (removeFromPool nm m), h), inflight)
  | OpSelectFromPool now => ((snd (selectFromPool now m), h), inflight)
  | OpStartPoolWatcher => (startPoolWatcher (m, h), inflight)
  | OpStopPoolWatcher => (stopPoolWatcher (m, h), inflight)
  | OpPoolWatcher => (poolWatcher (m, h), inflight)
  | OpTick now =>
      (* the callback only runs while its interval is active *)
      match watcherInterval m with
      | Some id =>
          if bool_decide (id ∈ activeTimers h)
          then (watcherTick now (m, h), inflight) else s
      | None => s
      end
  | OpHealthCheck =>
      match healthCheck m with
      | Some (_, m') => ((m', h), inflight)
      | None => s
      end
  | OpSplice i => ((set_pool (delete i (pool m)) m, h), inflight)
  | OpClearPool now => ((clearPool now m, h), inflight)
  | OpShutdown now => (shutdown now (m, h), inflight)
  | OpAcquireBegin scriptPath now p tname =>
      match cls m with
      | ProcessManager =>
          match acquire_begin scriptPath now p tname (m, h) with
          | (BeginCreating nm q, w1) => (w1, inflight ++ [(nm, q)])
          | (_, w1) => (w1, inflight)
          end
      | FakeManager => s
      end
  | OpAcquireSettled k outcome tsel tused =>
      match inflight !! k with
      | Some (nm, q) =>
          (snd (acquire_settled nm q outcome tsel tused (m, h)),
           delete k inflight)
      | None => s
      end
  | OpAcquire scriptPath e =>
      match cls m with
      | ProcessManager =>
          (snd (getOrCreateProcessInPool scriptPath e (m, h)), inflight)
      | FakeManager => s
      end
  | OpStopAllResources now => (stopAllResources now (m, h), inflight)
  | OpUpdateLastRequestTime now =>
      ((updateLastRequestTime now m, h), inflight)
  end.

(** Running a list of operations, first to last. *)
Definition run (ops : list Op) (s : Sys) : Sys := foldl (λ acc op, step op acc) s ops.

(** The state a trace starts from: a manager just constructed. *)
Definition initial (c : ManagerClass) (o : Options) (now : Z) : Sys :=
  (new_manager c o now, []).

(** An [options] object whose pool bound, when given, is a size. *)
Definition valid_options (o : Options) : Prop :=
  match opt_maxPoolSize o with
  | Some n => 0 ≤ n
  | None => True
  end.

(** ** Predicates and sample states used in the statements *)

(** The liveness probe as a predicate, and its negation. *)
Definition alive (c : ManagerClass) (r : ResourceInfo) : Prop :=
  isResourceAlive c r = true.
Definition dead (c : ManagerClass) (r : ResourceInfo) : Prop :=
  isResourceAlive c r = false.

#[global] Instance alive_dec c r : Decision (alive c r).
Proof. unfold alive. apply _. Defined.
#[global] Instance dead_dec c r : Decision (dead c r).
Proof. unfold dead. apply _. Defined.

(** The condition under which a tick evicts. *)
Definition tick_evicts (now : Z) (m : Manager) : Prop :=
  isShuttingDown m = false
  ∧ pool m ≠ []
  ∧ poolCheckInterval m < now - lastRequestTime m.

(** [evolves m m']: the bound is the same, the pool did not grow past the
    larger of its old size and the bound, and the three acquisition counters
    moved together. Every engine method relates its pre-state to its
    post-state this way. *)
Record evolves (m m' : Manager) : Prop := mkEvolves {
  ev_cls : cls m' = cls m;
  ev_max : maxPoolSize m' = maxPoolSize m;
  ev_len : Z.of_nat (length (pool m')) ≤
             Z.max (Z.of_nat (length (pool m))) (maxPoolSize m);
  ev_cnt : hits (metrics m') + misses (metrics m') - requests (metrics m') =
             hits (metrics m) + misses (metrics m) - requests (metrics m)
}.

(** The manager reached by a trace. *)
Definition manager_after (ops : list Op) (c : ManagerClass) (o : Options)
    (now : Z) : Manager :=
  fst (fst (run ops (initial c o now))).

(** The manager after [addToPool(h)], [selectFromPool()],
    [removeFromPool(h.name)], [selectFromPool()]. *)
Definition after_metric_sequence (m0 : Manager) (h : ResourceInfo) (t1 t2 : Z)
    : Manager :=
  let m1 := snd (addToPool h m0) in
  let m2 := snd (selectFromPool t1 m1) in
  let m3 := snd (removeFromPool (name h) m2) in
  snd (selectFromPool t2 m3).

(** The value line expected for metric [nm] with value [v]. *)
Definition expected_value_line (c : ManagerClass) (nm v : string) : string :=
  "serverless_manager_pool_" +:+ nm +:+ "{resource_type=" +:+ dquote +:+
  getResourceType c +:+ dquote +:+ ",manager=" +:+ dquote +:+
  constructor_name c +:+ dquote +:+ "} " +:+ v.

Definition expected_lines (c : ManagerClass) : list string :=
  [ "# HELP serverless_manager_pool_requests_total Total number of pool acquisition requests";
    "# TYPE serverless_manager_pool_requests_total counter";
    expected_value_line c "requests_total" "2";
    "# HELP serverless_manager_pool_hits_total Total number of successful pool hits";
    "# TYPE serverless_manager_pool_hits_total counter";
    expected_value_line c "hits_total" "1";
    "# HELP serverless_manager_pool_misses_total Total number of pool misses";
    "# TYPE serverless_manager_pool_misses_total counter";
    expected_value_line c "misses_total" "1";
    "# HELP serverless_manager_pool_additions_total Total number of resources added to pool";
    "# TYPE serverless_manager_pool_additions_total counter";
    expected_value_line c "additions_total" "1";
    "# HELP serverless_manager_pool_evictions_total Total number of idle resources evicted";
    "# TYPE serverless_manager_pool_evictions_total counter";
    expected_value_line c "evictions_total" "0";
    "# HELP serverless_manager_pool_removals_total Total number of resources removed from pool";
    "# TYPE serverless_manager_pool_removals_total counter";
    expected_value_line c "removals_total" "1";
    "# HELP serverless_manager_pool_size Current number of resources in pool";
    "# TYPE serverless_manager_pool_size gauge";
    expected_value_line c "size" "0" ].

Definition default_options : Options := mkOptions None None None.

Definition options_max (n : Z) : Options := mkOptions (Some n) None None.

(** A concrete pool for the examples: three processes on ports 8001-8003. *)
Definition handle (nm : string) (p : Z) : ResourceInfo :=
  mkResource nm p (Some (mkChild p false)) 0 0.

Definition pool_ABC : list ResourceInfo :=
  [handle "A" 8001; handle "B" 8002; handle "C" 8003].

Definition manager_ABC : Manager :=
  set_pool pool_ABC (fst (new_manager ProcessManager default_options 0)).

(** One handle [X], a check interval of 1000 ms, last request at 0. *)
Definition manager_X : Manager :=
  set_pool [handle "X" 8001]
    (fst (new_manager FakeManager (mkOptions None (Some 1000) None) 0)).

Definition full_trace : list Op :=
  [OpAddToPool (handle "A" 8001); OpAddToPool (handle "B" 8002);
   OpSelectFromPool 5000; OpAddToPool (handle "C" 8003)].

(** A [ProcessManager] with one pooled process and its watcher running. *)
Definition running_process_manager : World :=
  let '(m, h) := startPoolWatcher (new_manager ProcessManager default_options 0) in
  (snd (addToPool (handle "A" 8001) m), h).

Definition child_4242 : ChildProcess := mkChild 4242 false.

(** An acquisition starts on an empty [ProcessManager] at time 1000 and
    awaits its child; [shutdown()] runs at 1500; the child reports ready at
    2000 and the acquisition resumes. *)
Definition race_trace : list Op :=
  [OpAcquireBegin (Some "app.js") 1000 (Some 8080) 1000;
   OpShutdown 1500;
   OpAcquireSettled 0 (Some (child_4242, 2000)) 2000 2000].

(** The bound set to 0 on a live manager, as the worker tests do to force
    the pool full. *)
Definition zero_capacity_manager : World :=
  let '(m, h) := new_manager ProcessManager default_options 0 in
  (set_maxPoolSize 0 m, h).

Definition sample_env : AcquireEnv :=
  mkAcquireEnv 1000 (Some 8080) 1000 (Some (child_4242, 1200)) 1200 1200.

(** ** Pre-warming *)

Module PreWarm.

(** Modelled from the spec: the engine state extended with the pre-warming
    fields of the data model, [minPoolSize] (lower bound for pre-warming)
    and [preWarmConfig] (the payload passed to the adapter's create path).
    [lib/managers/base.js] has neither field and no pre-warming code; of
    that feature only the tests ([test/prewarming.test.js]) and an adapter's
    [createResource] are at hand. [createCalls] counts the calls of the
    adapter's create path. *)
Record PreWarmManager := mkPreWarm {
  engine : World;
  minPoolSize : Z;
  preWarmConfig : string;
  createCalls : nat
}.


Section WithAdapter.

(** Modelled from the spec: the adapter's create path, called with the
    pre-warm payload; the second argument numbers the calls, so that each
    call may answer a different handle. *)
Variable createResource : string → nat → ResourceInfo.

(** Modelled from the spec: the constructor with the two options
    ("minPoolSize, default 0: pre-warm target"; "minPoolSize > maxPoolSize
    is clamped to maxPoolSize"). *)
Definition new_prewarming (c : ManagerClass) (o : Options)
    (opt_minPoolSize : option Z) (cfg : string) (now : Z) : PreWarmManager :=
  let w := new_manager c o now in
  mkPreWarm w (Z.min (or_default opt_minPoolSize 0) (maxPoolSize (fst w))) cfg 0.




End WithAdapter.



End PreWarm.

(** ** Pool information: [formatResourceInfo] and [getPoolInfo] *)

(** The key [alive] of the object [formatResourceInfo] builds. The base
    class does not set it. [ProcessManager] sets it to
    [process && !process.killed]: a boolean when the handle has a child,
    and the falsy [process] itself ([undefined]) when it has none. *)
Inductive AliveField :=
  | AliveAbsent
  | AliveUndefined
  | AliveBool (b : bool).

#[global] Instance AliveField_eq_dec : EqDecision AliveField.
Proof. solve_decision. Defined.

(** The object [formatResourceInfo] builds. *)
Record ResourceView := mkView {
  view_name : string;
  view_port : Z;
  view_createdAt : Z;
  view_lastUsed : Z;
  view_alive : AliveField
}.

(** [formatResourceInfo(resourceInfo)], by class. *)
Definition formatResourceInfo (c : ManagerClass) (r : ResourceInfo) : ResourceView :=
  match c with
  | FakeManager =>
      mkView (name r) (port r) (createdAt r) (lastUsed r) AliveAbsent
  | ProcessManager =>
      mkView (name r) (port r) (createdAt r) (lastUsed r)
        (match process r with
         | Some child => AliveBool (negb (killed child))
         | None => AliveUndefined
         end)
  end.

(** What [getPoolInfo()] returns. [ProcessManager] returns the same object
    with the key [resources] renamed to [processes]. *)
Record PoolInfo := mkPoolInfo {
  poolSize : Z;
  info_maxPoolSize : Z;
  info_isShuttingDown : bool;
  info_watcherStarted : bool;
  resources : list ResourceView;
  info_metrics : Metrics
}.

(** [getPoolInfo()] *)
Definition getPoolInfo (m : Manager) : PoolInfo :=
  mkPoolInfo (Z.of_nat (length (pool m))) (maxPoolSize m) (isShuttingDown m)
    (watcherStarted m) (map (formatResourceInfo (cls m)) (pool m))
    (getMetrics m).

(** ** Creation of a child: [ProcessManager.createProcess] *)

(** Why the promise of [createProcess] rejects. *)
Inductive CreateError := CreationTimeout | ChildError.

(** What the child and the creation timer can do after [spawn] returned:
    the timer fires, the child writes to stdout (at clock [t]) or stderr,
    emits [error], or closes. *)
Inductive ChildEvent :=
  | EvTimeout
  | EvStdout (t : Z)
  | EvStderr
  | EvError
  | EvClose.

(** The closure state of one [createProcess] call: the latch [isResolved],
    whether the creation timer is still armed, whether the [once] listener
    on stdout is still attached, and the calls made to [resolve]/[reject],
    oldest first. *)
Record Creation := mkCreation {
  cr_name : string;
  cr_port : Z;
  cr_child : ChildProcess;
  isResolved : bool;
  timerArmed : bool;
  stdoutListening : bool;
  settleCalls : list (ResourceInfo + CreateError)
}.

(** The state right after the [try] block ran without throwing. *)
Definition createProcess_start (nm : string) (p : Z) (child : ChildProcess)
    : Creation :=
  mkCreation nm p child false true true [].

(** One event, handled by the callbacks [createProcess] installed. [close]
    and a late [error] call [removeProcessFromPool], which is
    [removeFromPool]. *)
Definition createProcess_event (ev : ChildEvent) (s : Creation * Manager)
    : Creation * Manager :=
  let '(cr, m) := s in
  match ev with
  | EvTimeout =>
      if timerArmed cr then
        if isResolved cr
        then (mkCreation (cr_name cr) (cr_port cr) (cr_child cr) true false
                (stdoutListening cr) (settleCalls cr), m)
        else (mkCreation (cr_name cr) (cr_port cr) (cr_child cr) true false
                (stdoutListening cr) (settleCalls cr ++ [inr CreationTimeout]), m)
      else s
  | EvStdout t =>
      if stdoutListening cr then
        if isResolved cr
        then (mkCreation (cr_name cr) (cr_port cr) (cr_child cr) true
                (timerArmed cr) false (settleCalls cr), m)
        else (mkCreation (cr_name cr) (cr_port cr) (cr_child cr) true false
                false
                (settleCalls cr
                 ++ [inl (processInfo_of (cr_name cr) (cr_port cr) (cr_child cr) t)]),
              m)
      else s
  | EvStderr => s
  | EvError =>
      if isResolved cr
      then (cr, snd (removeFromPool (cr_name cr) m))
      else (mkCreation (cr_name cr) (cr_port cr) (cr_child cr) true false
              (stdoutListening cr) (settleCalls cr ++ [inr ChildError]), m)
  | EvClose =>
      (mkCreation (cr_name cr) (cr_port cr) (cr_child cr) (isResolved cr) false
         (stdoutListening cr) (settleCalls cr),
       snd (removeFromPool (cr_name cr) m))
  end.

(** A sequence of events, first to last. *)
Definition createProcess_events (evs : list ChildEvent) (s : Creation * Manager)
    : Creation * Manager :=
  foldl (λ acc ev, createProcess_event ev acc) s evs.

(** ** Bookkeeping relations used in the statements *)

(** [accounts m m']: the configuration is the same, no counter went down,
    the handles added and not yet counted as removed or evicted still
    cover the pool, and the shutdown flag was not reset. *)
Record accounts (m m' : Manager) : Prop := mkAccounts {
  ac_cls : cls m' = cls m;
  ac_max : maxPoolSize m' = maxPoolSize m;
  ac_interval : poolCheckInterval m' = poolCheckInterval m;
  ac_timeout : shutdownTimeout m' = shutdownTimeout m;
  ac_requests : requests (metrics m) ≤ requests (metrics m');
  ac_hits : hits (metrics m) ≤ hits (metrics m');
  ac_misses : misses (metrics m) ≤ misses (metrics m');
  ac_additions : additions (metrics m) ≤ additions (metrics m');
  ac_evictions : evictions (metrics m) ≤ evictions (metrics m');
  ac_removals : removals (metrics m) ≤ removals (metrics m');
  ac_balance :
    additions (metrics m) - removals (metrics m) - evictions (metrics m)
      - Z.of_nat (length (pool m))
    ≤ additions (metrics m') - removals (metrics m') - evictions (metrics m')
      - Z.of_nat (length (pool m'));
  ac_flag : isShuttingDown m = true → isShuttingDown m' = true
}.

(** The active timers are exactly the one [watcherInterval] holds. *)
Definition timer_held (w : World) : Prop :=
  activeTimers (snd w) =
    match watcherInterval (fst w) with Some id => [id] | None => [] end.

(** The timer bookkeeping of a manager on which [poolWatcher()] is only
    called through [startPoolWatcher()]: the active timers are exactly the
    one in [watcherInterval], and [setInterval] was called at most once,
    never before the watcher was started. *)
Definition timer_ok (w : World) : Prop :=
  activeTimers (snd w) =
    match watcherInterval (fst w) with Some id => [id] | None => [] end
  ∧ (timersCreated (snd w) ≤ 1)%nat
  ∧ (watcherStarted (fst w) = false →
       timersCreated (snd w) = 0%nat ∧ watcherInterval (fst w) = None).

(** Ticks of the eviction timer at the given clock readings, in order. *)
Definition watcherTicks (ts : list Z) (w : World) : World :=
  foldl (λ acc t, watcherTick t acc) w ts.

(** No pooled handle is called [nm]. *)
Definition name_free (nm : string) (m : Manager) : Prop :=
  ∀ r, r ∈ pool m → name r ≠ nm.

(** [same_settings m m']: everything but the pool and the counters is
    unchanged. *)
Record same_settings (m m' : Manager) : Prop := mkSameSettings {
  ss_cls : cls m' = cls m;
  ss_max : maxPoolSize m' = maxPoolSize m;
  ss_interval : poolCheckInterval m' = poolCheckInterval m;
  ss_timeout : shutdownTimeout m' = shutdownTimeout m;
  ss_last : lastRequestTime m' = lastRequestTime m;
  ss_started : watcherStarted m' = watcherStarted m;
  ss_watcher : watcherInterval m' = watcherInterval m;
  ss_flag : isShuttingDown m' = isShuttingDown m
}.

(** The name [getOrCreateProcessInPool] gives a new process. *)
Definition processName_of (p tname : Z) : string :=
  "process-" +:+ pretty p +:+ "-" +:+ pretty tname.

(** Two acquisitions overlap on a manager: both start, then both creations
    succeed, the first one first. *)
Definition overlapping_acquisitions (sp : string) (t0 t0' : Z) (p1 p2 : Z)
    (tn1 tn2 : Z) (c1 c2 : ChildProcess) (t1 t2 ts1 tu1 ts2 tu2 : Z) : list Op :=
  [OpAcquireBegin (Some sp) t0 (Some p1) tn1;
   OpAcquireBegin (Some sp) t0' (Some p2) tn2;
   OpAcquireSettled 0 (Some (c1, t1)) ts1 tu1;
   OpAcquireSettled 0 (Some (c2, t2)) ts2 tu2].

(** A pooled process whose child was killed, and the pool [Dead, Alive]. *)
Definition killed_handle (nm : string) (p : Z) : ResourceInfo :=
  mkResource nm p (Some (mkChild p true)) 0 0.

(** A pool with a killed process, a handle without child and a live
    process. *)
Definition manager_DNA : Manager :=
  set_pool [killed_handle "D" 8001; mkResource "N" 8003 None 0 0;
            handle "A" 8002]
    (fst (new_manager ProcessManager default_options 0)).

Definition manager_DA : Manager :=
  set_pool [killed_handle "D" 8001; handle "A" 8002]
    (fst (new_manager ProcessManager default_options 0)).

(** The watcher bookkeeping of a manager and its host: [watcherStarted],
    [watcherInterval], the number of [setInterval] calls, the active
    timers. *)
Definition watch_fields (w : World) : bool * option nat * nat * list nat :=
  (watcherStarted (fst w), watcherInterval (fst w),
   timersCreated (snd w), activeTimers (snd w)).

(** What [poolWatcher()], [startPoolWatcher()] and [stopPoolWatcher()] do
    to it. *)
Definition install_watch (x : bool * option nat * nat * list nat)
    : bool * option nat * nat * list nat :=
  let '(started, interval, created, active) := x in
  match interval with
  | Some _ => x
  | None => (started, Some created, S created, created :: active)
  end.

Definition start_watch (x : bool * option nat * nat * list nat)
    : bool * option nat * nat * list nat :=
  let '(started, interval, created, active) := x in
  if started then x
  else match interval with
       | Some _ => (true, interval, created, active)
       | None => (true, Some created, S created, created :: active)
       end.

Definition stop_watch (x : bool * option nat * nat * list nat)
    : bool * option nat * nat * list nat :=
  let '(started, interval, created, active) := x in
  match interval with
  | Some id => (started, None, created, filter (λ j, j ≠ id) active)
  | None => x
  end.

(** The watcher was started and then stopped. *)
Definition watcher_stopped (w : World) : Prop :=
  watcherStarted (fst w) = true
  ∧ watcherInterval (fst w) = None
  ∧ activeTimers (snd w) = [].

(** A string without a line feed: one line of the exposition. *)
Fixpoint one_line (s : string) : bool :=
  match s with
  | EmptyString => true
  | String c r => negb (Ascii.eqb c "010") && one_line r
  end.

(** * Properties *)

(** ** List facts used below *)

Lemma length_delete_le {A} (l : list A) (i : nat) :
  (length (delete i l) ≤ length l)%nat.
Proof.
  revert i. induction l as [|x l IH]; intros [|i]; simpl; try lia.
  specialize (IH i). lia.
Qed.

Lemma take_delete_same {A} (l : list A) (i : nat) :
  take i (delete i l) = take i l.
Proof.
  revert i. induction l as [|x l IH]; intros [|i]; simpl; try done.
  by rewrite IH.
Qed.

Lemma drop_delete_same {A} (l : list A) (i : nat) :
  drop i (delete i l) = drop (S i) l.
Proof.
  revert i. induction l as [|x l IH]; intros [|i]; simpl; try done.
Qed.

(** ** The health-check loop removes exactly the dead resources *)

Section HealthCheck.
Variable c : ManagerClass.

(** Entered with index [k - 1] inside the array, the loop never reads past
    the end; it keeps the live part of the first [k] elements and collects
    the dead ones from the last to the first. *)
Lemma healthCheck_loop_filter (k : nat) :
  ∀ p acc, (k ≤ length p)%nat →
    healthCheck_loop c k p acc =
      Some (filter (alive c) (take k p) ++ drop k p,
            acc ++ reverse (filter (dead c) (take k p))).
Proof.
  induction k as [|i IH]; intros p acc Hk; simpl.
  - rewrite drop_0. simpl. by rewrite app_nil_r.
  - destruct (p !! i) as [x|] eqn:Hx.
    2:{ apply lookup_ge_None in Hx. lia. }
    rewrite (take_S_r _ _ _ Hx), !filter_app.
    destruct (isResourceAlive c x) eqn:Hlive.
    + rewrite IH by lia. rewrite (drop_S _ _ _ Hx).
      rewrite (filter_cons_True (alive c)) by done.
      rewrite (filter_cons_False (dead c)) by (unfold dead; congruence).
      rewrite !filter_nil, app_nil_r. f_equal. f_equal.
      by rewrite <- app_assoc.
    + rewrite IH by (rewrite length_delete by eauto; lia).
      rewrite take_delete_same, drop_delete_same.
      rewrite (filter_cons_False (alive c)) by (unfold alive; congruence).
      rewrite (filter_cons_True (dead c)) by done.
      rewrite !filter_nil, app_nil_r, reverse_snoc. f_equal. f_equal.
      by rewrite <- app_assoc.
Qed.
End HealthCheck.

Lemma length_filter_alive_dead c (l : list ResourceInfo) :
  (length (filter (alive c) l) + length (filter (dead c) l) = length l)%nat.
Proof.
  induction l as [|x l IH]; [done|].
  destruct (isResourceAlive c x) eqn:E.
  - rewrite (filter_cons_True (alive c)) by done.
    rewrite (filter_cons_False (dead c)) by (unfold dead; congruence).
    simpl. lia.
  - rewrite (filter_cons_False (alive c)) by (unfold alive; congruence).
    rewrite (filter_cons_True (dead c)) by done.
    simpl. lia.
Qed.

(** What [healthCheck()] computes, in closed form. *)
Lemma healthCheck_eq (m : Manager) :
  healthCheck m =
    Some (mkReport
            (Z.of_nat (length (filter (alive (cls m)) (pool m))))
            (Z.of_nat (length (filter (dead (cls m)) (pool m))))
            ((0 <? Z.of_nat (length (filter (alive (cls m)) (pool m))))
             || negb (isShuttingDown m)),
          set_pool (filter (alive (cls m)) (pool m)) m).
Proof.
  unfold healthCheck.
  rewrite healthCheck_loop_filter by lia.
  rewrite firstn_all, drop_all, app_nil_r. simpl.
  by rewrite length_reverse.
Qed.

(** C10. [healthCheck()] always returns; it leaves every counter of
    [metrics] (removals and evictions included) and every other field of the
    manager as they were, whatever the number of dead handles; the pool
    becomes its live handles in their order, and the report counts the
    handles kept and the handles removed. *)
Theorem healthCheck_counters_unchanged :
  ∀ m : Manager,
    ∃ rep m',
      healthCheck m = Some (rep, m')
      ∧ metrics m' = metrics m
      ∧ m' = set_pool (pool m') m
      ∧ pool m' = filter (alive (cls m)) (pool m)
      ∧ total rep = Z.of_nat (length (pool m'))
      ∧ deadRemoved rep = Z.of_nat (length (filter (dead (cls m)) (pool m)))
      ∧ deadRemoved rep = Z.of_nat (length (pool m)) - Z.of_nat (length (pool m'))
      ∧ healthy rep = (0 <? Z.of_nat (length (pool m'))) || negb (isShuttingDown m).
Proof.
  intros m. eexists _, _. split; [apply healthCheck_eq|].
  simpl. repeat split.
  pose proof (length_filter_alive_dead (cls m) (pool m)). lia.
Qed.

(** ** Round-robin selection *)

Lemma js_index_nonneg {A} (l : list A) (i : Z) :
  0 ≤ i → js_index l i = l !! Z.to_nat i.
Proof. intros Hi. unfold js_index. destruct (Z.ltb_spec i 0); [lia | done]. Qed.

(** C2. Every call of [selectFromPool()] bumps [requests] and leaves the pool
    as it is. On an empty pool it bumps [misses] only and returns null. On a
    pool of [n > 0] handles it bumps [hits] only and, the clock being past
    the epoch, returns the handle at index [floor(now / 1000) mod n]. With
    the pool [A, B, C], any clock reading within second 2000 selects [C], and
    any within second 2001 selects [A]. *)
Theorem selectFromPool_round_robin :
  (∀ now m,
     requests (metrics (snd (selectFromPool now m))) = requests (metrics m) + 1
     ∧ pool (snd (selectFromPool now m)) = pool m
     ∧ additions (metrics (snd (selectFromPool now m))) = additions (metrics m)
     ∧ evictions (metrics (snd (selectFromPool now m))) = evictions (metrics m)
     ∧ removals (metrics (snd (selectFromPool now m))) = removals (metrics m))
  ∧ (∀ now m, pool m = [] →
       fst (selectFromPool now m) = None
       ∧ misses (metrics (snd (selectFromPool now m))) = misses (metrics m) + 1
       ∧ hits (metrics (snd (selectFromPool now m))) = hits (metrics m))
  ∧ (∀ now m, pool m ≠ [] → 0 ≤ now →
       let n := Z.of_nat (length (pool m)) in
       hits (metrics (snd (selectFromPool now m))) = hits (metrics m) + 1
       ∧ misses (metrics (snd (selectFromPool now m))) = misses (metrics m)
       ∧ fst (selectFromPool now m) = pool m !! Z.to_nat ((now / 1000) `mod` n)
       ∧ is_Some (fst (selectFromPool now m)))
  ∧ (∀ A B C m ms, pool m = [A; B; C] → 0 ≤ ms < 1000 →
       fst (selectFromPool (2000 * 1000 + ms) m) = Some C
       ∧ fst (selectFromPool (2001 * 1000 + ms) m) = Some A).
Proof.
  split; [|split; [|split]].
  - intros now m. unfold selectFromPool. simpl.
    destruct (Z.of_nat (length (pool m)) =? 0); simpl; repeat split; lia.
  - intros now m Hp. unfold selectFromPool. simpl. rewrite Hp. simpl.
    repeat split; lia.
  - intros now m Hp Hnow n. unfold selectFromPool. simpl. fold n.
    assert (Hn : 0 < n).
    { unfold n. destruct (pool m); [done | simpl; lia]. }
    destruct (Z.eqb_spec n 0) as [?|_]; [lia|]. simpl.
    assert (Hq : 0 ≤ now / 1000) by (apply Z.div_pos; lia).
    rewrite Z.rem_mod_nonneg by lia.
    pose proof (Z.mod_pos_bound (now / 1000) n Hn) as Hb.
    rewrite js_index_nonneg by lia.
    repeat split; try lia.
    apply lookup_lt_is_Some. unfold n in *. lia.
  - intros A B C m ms Hp Hms. unfold selectFromPool. simpl. rewrite Hp. simpl.
    assert (H0 : (2000 * 1000 + ms) / 1000 = 2000)
      by (symmetry; apply (Z.div_unique _ _ _ ms); lia).
    assert (H1 : (2001 * 1000 + ms) / 1000 = 2001)
      by (symmetry; apply (Z.div_unique _ _ _ ms); lia).
    rewrite H0, H1. split; reflexivity.
Qed.

Lemma selectFromPool_round_robin_witness :
  (fst (selectFromPool 5000 (fst (new_manager ProcessManager default_options 0))) = None
   ∧ misses (metrics (snd (selectFromPool 5000 (fst (new_manager ProcessManager default_options 0))))) = 0 + 1
   ∧ hits (metrics (snd (selectFromPool 5000 (fst (new_manager ProcessManager default_options 0))))) = 0)
  ∧ (hits (metrics (snd (selectFromPool 2000000 manager_ABC))) = 0 + 1
     ∧ misses (metrics (snd (selectFromPool 2000000 manager_ABC))) = 0
     ∧ fst (selectFromPool 2000000 manager_ABC) =
         pool_ABC !! Z.to_nat ((2000000 / 1000) `mod` 3)
     ∧ is_Some (fst (selectFromPool 2000000 manager_ABC)))
  ∧ (fst (selectFromPool (2000 * 1000 + 0) manager_ABC) = Some (handle "C" 8003)
     ∧ fst (selectFromPool (2001 * 1000 + 0) manager_ABC) = Some (handle "A" 8001)).
Proof.
  destruct selectFromPool_round_robin as (_ & Hempty & Hfull & Hex).
  split; [|split].
  - apply (Hempty 5000 (fst (new_manager ProcessManager default_options 0))).
    reflexivity.
  - apply (Hfull 2000000 manager_ABC); [discriminate | lia].
  - apply (Hex (handle "A" 8001) (handle "B" 8002) (handle "C" 8003) manager_ABC 0);
      [reflexivity | lia].
Defined.

(** ** Idle eviction *)

(** X22. The callback of the base class: a tick of the eviction timer in a
    state that is not shutting down, has a non-empty pool and saw its last
    request more than [poolCheckInterval] ago removes exactly the first
    (oldest) handle, adds one to [evictions], hands that handle to
    [terminateResource] and leaves [removals] and the other counters alone.
    A tick in any other state changes nothing. *)
Theorem watcherTick_evicts_oldest :
  ∀ (now : Z) (m : Manager) (h : Host),
    (tick_evicts now m →
       ∃ oldest rest,
         pool m = oldest :: rest
         ∧ pool (fst (watcherTick now (m, h))) = rest
         ∧ metrics (fst (watcherTick now (m, h))) =
             mkMetrics (requests (metrics m)) (hits (metrics m))
               (misses (metrics m)) (additions (metrics m))
               (evictions (metrics m) + 1) (removals (metrics m))
         ∧ terminated (snd (watcherTick now (m, h))) = terminated h ++ [name oldest])
    ∧ (¬ tick_evicts now m → watcherTick now (m, h) = (m, h)).
Proof.
  intros now m h. unfold tick_evicts, watcherTick. split.
  - intros (Hs & Hp & Ht). rewrite Hs.
    destruct (pool m) as [|oldest rest] eqn:E; [done|].
    exists oldest, rest. simpl length.
    destruct (Z.ltb_spec 0 (Z.of_nat (S (length rest)))); [|lia].
    destruct (Z.ltb_spec (poolCheckInterval m) (now - lastRequestTime m)); [|lia].
    simpl. done.
  - intros Hno. destruct (isShuttingDown m) eqn:Hs; [done|].
    destruct (pool m) as [|oldest rest] eqn:E; [done|]. simpl length.
    destruct (Z.ltb_spec 0 (Z.of_nat (S (length rest)))); [|done].
    destruct (Z.ltb_spec (poolCheckInterval m) (now - lastRequestTime m)); [|done].
    exfalso. apply Hno. done.
Qed.

Lemma watcherTick_evicts_oldest_witness :
  (∃ oldest rest,
     pool manager_X = oldest :: rest
     ∧ pool (fst (watcherTick 1001 (manager_X, empty_host))) = rest
     ∧ metrics (fst (watcherTick 1001 (manager_X, empty_host))) =
         mkMetrics 0 0 0 0 (0 + 1) 0
     ∧ terminated (snd (watcherTick 1001 (manager_X, empty_host))) =
         [] ++ [name oldest])
  ∧ watcherTick 1000 (manager_X, empty_host) = (manager_X, empty_host).
Proof.
  split.
  - apply (proj1 (watcherTick_evicts_oldest 1001 manager_X empty_host)).
    unfold tick_evicts. simpl. repeat split; try done; lia.
  - apply (proj2 (watcherTick_evicts_oldest 1000 manager_X empty_host)).
    unfold tick_evicts. simpl. intros (_ & _ & H). lia.
Defined.

(** C6. The same tick on a [K8sManager], whose override of [poolWatcher()]
    installs its own callback: under the three conditions the oldest pod is
    removed from the pool and handed to [terminateResource], as in the base
    class, but no counter moves: [evictions] is not incremented, where the
    callback of the base class adds one. *)
Theorem K8sManager_tick_evicts_without_counting :
  ∀ (now : Z) (m : Manager) (h : Host),
    tick_evicts now m →
    ∃ oldest rest,
      pool m = oldest :: rest
      ∧ pool (fst (K8sManager_watcherTick now (m, h))) = rest
      ∧ terminated (snd (K8sManager_watcherTick now (m, h)))
        = terminated h ++ [name oldest]
      ∧ metrics (fst (K8sManager_watcherTick now (m, h))) = metrics m
      ∧ evictions (metrics (fst (K8sManager_watcherTick now (m, h))))
        ≠ evictions (metrics m) + 1
      ∧ evictions (metrics (fst (watcherTick now (m, h))))
        = evictions (metrics m) + 1.
Proof.
  intros now m h (Hs & Hp & Ht).
  unfold K8sManager_watcherTick, watcherTick. rewrite Hs.
  destruct (pool m) as [|oldest rest] eqn:E; [done|].
  exists oldest, rest. simpl length.
  destruct (Z.ltb_spec 0 (Z.of_nat (S (length rest)))); [|lia].
  destruct (Z.ltb_spec (poolCheckInterval m) (now - lastRequestTime m)); [|lia].
  simpl. repeat split; try done. lia.
Qed.

Lemma K8sManager_tick_evicts_without_counting_witness :
  ∃ oldest rest,
    pool manager_X = oldest :: rest
    ∧ pool (fst (K8sManager_watcherTick 1001 (manager_X, empty_host))) = rest
    ∧ terminated (snd (K8sManager_watcherTick 1001 (manager_X, empty_host)))
      = terminated empty_host ++ [name oldest]
    ∧ metrics (fst (K8sManager_watcherTick 1001 (manager_X, empty_host)))
      = metrics manager_X
    ∧ evictions (metrics (fst (K8sManager_watcherTick 1001 (manager_X, empty_host))))
      ≠ evictions (metrics manager_X) + 1
    ∧ evictions (metrics (fst (watcherTick 1001 (manager_X, empty_host))))
      = evictions (metrics manager_X) + 1.
Proof.
  apply (K8sManager_tick_evicts_without_counting 1001 manager_X empty_host).
  unfold tick_evicts. simpl. repeat split; try done; lia.
Defined.

(** ** How an operation may change a manager *)

#[global] Instance evolves_preorder : PreOrder evolves.
Proof.
  split.
  - intros m. constructor; try done; lia.
  - intros a b c [] []. constructor; try congruence; lia.
Qed.

Ltac evolve_now := constructor; simpl; try done; try lia.

Lemma set_pool_evolves p m :
  (length p ≤ length (pool m))%nat → evolves m (set_pool p m).
Proof. intros. evolve_now. Qed.

Lemma addToPool_evolves r m : evolves m (snd (addToPool r m)).
Proof.
  unfold addToPool.
  destruct (Z.ltb_spec (Z.of_nat (length (pool m))) (maxPoolSize m)); simpl.
  - evolve_now. rewrite length_app. simpl. lia.
  - reflexivity.
Qed.

Lemma removeFromPool_evolves nm m : evolves m (snd (removeFromPool nm m)).
Proof.
  unfold removeFromPool.
  destruct (list_find _ _) as [[i x]|]; simpl; [|reflexivity].
  evolve_now. pose proof (length_delete_le (pool m) i). lia.
Qed.

Lemma selectFromPool_evolves now m : evolves m (snd (selectFromPool now m)).
Proof.
  unfold selectFromPool. simpl.
  destruct (Z.of_nat (length (pool m)) =? 0); simpl; evolve_now.
Qed.

Lemma clearPool_evolves now m : evolves m (clearPool now m).
Proof. evolve_now. Qed.

Lemma poolWatcher_evolves w : evolves (fst w) (fst (poolWatcher w)).
Proof.
  destruct w as [m h]. unfold poolWatcher.
  destruct (watcherInterval m); simpl; [reflexivity | evolve_now].
Qed.

Lemma startPoolWatcher_evolves w : evolves (fst w) (fst (startPoolWatcher w)).
Proof.
  destruct w as [m h]. unfold startPoolWatcher.
  destruct (watcherStarted m); [reflexivity|].
  etrans; [|apply (poolWatcher_evolves (set_watcherStarted true m, h))].
  evolve_now.
Qed.

Lemma stopPoolWatcher_evolves w : evolves (fst w) (fst (stopPoolWatcher w)).
Proof.
  destruct w as [m h]. unfold stopPoolWatcher.
  destruct (watcherInterval m); simpl; [evolve_now | reflexivity].
Qed.

Lemma watcherTick_evolves now w : evolves (fst w) (fst (watcherTick now w)).
Proof.
  destruct w as [m h]. unfold watcherTick.
  destruct (isShuttingDown m); [reflexivity|].
  destruct (_ && _); [|reflexivity].
  destruct (pool m) eqn:E; simpl; [reflexivity|].
  evolve_now. rewrite E. simpl. lia.
Qed.

Lemma stopAllResources_evolves now w :
  evolves (fst w) (fst (stopAllResources now w)).
Proof.
  destruct w as [m h]. unfold stopAllResources.
  destruct (pool m); simpl; [reflexivity | evolve_now].
Qed.

Lemma shutdown_evolves now w : evolves (fst w) (fst (shutdown now w)).
Proof.
  assert (Hcore : ∀ w0 : World,
    evolves (fst w0)
      (fst (stopAllResources now
              (stopPoolWatcher (set_isShuttingDown true (fst w0), snd w0))))).
  { intros w0. etrans; [|apply stopAllResources_evolves].
    etrans; [|apply stopPoolWatcher_evolves]. evolve_now. }
  unfold shutdown, BaseServerlessManager_shutdown, ProcessManager_shutdown.
  specialize (Hcore w).
  destruct (cls w.1); destruct (isShuttingDown w.1); try reflexivity;
    destruct (stopPoolWatcher _) as [m1 h1];
    destruct (stopAllResources _ _) as [m2 h2]; exact Hcore.
Qed.

Lemma healthCheck_evolves m rep m' :
  healthCheck m = Some (rep, m') → evolves m m'.
Proof.
  rewrite healthCheck_eq. intros [= _ <-].
  apply set_pool_evolves, length_filter.
Qed.

Lemma acquire_begin_evolves scriptPath now p tname w :
  evolves (fst w) (fst (snd (acquire_begin scriptPath now p tname w))).
Proof.
  unfold acquire_begin.
  destruct (isShuttingDown w.1); [reflexivity|].
  destruct (falsy_path scriptPath); [reflexivity|].
  pose proof (startPoolWatcher_evolves (updateLastRequestTime now w.1, w.2)) as H.
  destruct (startPoolWatcher _) as [m1 h1]. simpl in H.
  assert (evolves w.1 m1) by (etrans; [|exact H]; evolve_now).
  destruct (canCreateNewResource m1); [destruct p|]; done.
Qed.

Lemma acquire_select_evolves tsel tused w :
  evolves (fst w) (fst (snd (acquire_select tsel tused w))).
Proof.
  destruct w as [m h]. unfold acquire_select.
  pose proof (selectFromPool_evolves tsel m) as H.
  destruct (selectFromPool tsel m) as [[r|] m1]; simpl in *; [|done].
  destruct (isResourceAlive (cls m1) r).
  - simpl. etrans; [exact H|]. apply set_pool_evolves.
    by rewrite length_alter.
  - pose proof (removeFromPool_evolves (name r) m1) as H2.
    destruct (removeFromPool (name r) m1) as [x m2]. simpl in H2.
    assert (evolves m m2) by (etrans; done).
    by destruct (pool m2).
Qed.

Lemma acquire_created_evolves r tsel tused w :
  evolves (fst w) (fst (snd (acquire_created r tsel tused w))).
Proof.
  destruct w as [m h]. unfold acquire_created.
  destruct (canCreateNewResource m).
  - pose proof (addToPool_evolves r m) as H.
    by destruct (addToPool r m).
  - apply (acquire_select_evolves tsel tused (m, terminateResource r h)).
Qed.

Lemma acquire_settled_evolves nm p outcome tsel tused w :
  evolves (fst w) (fst (snd (acquire_settled nm p outcome tsel tused w))).
Proof.
  unfold acquire_settled. destruct outcome as [[child t]|].
  - apply acquire_created_evolves.
  - apply acquire_select_evolves.
Qed.

Lemma getOrCreateProcessInPool_evolves scriptPath e w :
  evolves (fst w) (fst (snd (getOrCreateProcessInPool scriptPath e w))).
Proof.
  unfold getOrCreateProcessInPool.
  pose proof (acquire_begin_evolves scriptPath (t_request e) (freePort e)
                (t_name e) w) as H.
  destruct (acquire_begin _ _ _ _ _) as [[err|nm p|] w1]; simpl in H;
    [done | | ]; (etrans; [exact H|]).
  - apply acquire_settled_evolves.
  - apply acquire_select_evolves.
Qed.

(** Every operation of a trace evolves the manager. *)
Lemma step_evolves op s : evolves (fst (fst s)) (fst (fst (step op s))).
Proof.
  destruct s as [[m h] inflight]. destruct op; simpl.
  - apply addToPool_evolves.
  - apply removeFromPool_evolves.
  - apply selectFromPool_evolves.
  - apply (startPoolWatcher_evolves (m, h)).
  - apply (stopPoolWatcher_evolves (m, h)).
  - apply (poolWatcher_evolves (m, h)).
  - destruct (watcherInterval m); [|reflexivity].
    destruct (bool_decide _); [|reflexivity].
    apply (watcherTick_evolves now (m, h)).
  - destruct (healthCheck m) as [[rep m']|] eqn:E; [|reflexivity].
    simpl. by eapply healthCheck_evolves.
  - apply set_pool_evolves, length_delete_le.
  - apply clearPool_evolves.
  - apply (shutdown_evolves now (m, h)).
  - destruct (cls m); [reflexivity|].
    pose proof (acquire_begin_evolves scriptPath now port0 tname (m, h)) as H.
    by destruct (acquire_begin _ _ _ _ _) as [[err|nm q|] w1].
  - destruct (inflight !! k) as [[nm q]|]; [|reflexivity].
    apply (acquire_settled_evolves nm q outcome tsel tused (m, h)).
  - destruct (cls m); [reflexivity|].
    apply (getOrCreateProcessInPool_evolves scriptPath e (m, h)).
  - apply (stopAllResources_evolves now (m, h)).
  - evolve_now.
Qed.

Lemma run_evolves ops : ∀ s, evolves (fst (fst s)) (fst (fst (run ops s))).
Proof.
  induction ops as [|op ops IH]; intros s; simpl.
  - reflexivity.
  - etrans; [apply (step_evolves op s) | apply IH].
Qed.

(** ** Invariants of traces *)

Lemma new_manager_fresh c o now :
  let m := fst (new_manager c o now) in
  cls m = c
  ∧ maxPoolSize m = or_default (opt_maxPoolSize o) 3
  ∧ pool m = []
  ∧ metrics m = zero_metrics
  ∧ isShuttingDown m = false
  ∧ watcherStarted m = false
  ∧ watcherInterval m = None.
Proof. destruct c; simpl; done. Qed.

Lemma or_default_nonneg o d : 0 ≤ d → (∀ n, o = Some n → 0 ≤ n) → 0 ≤ or_default o d.
Proof.
  intros Hd Ho. unfold or_default.
  destruct o as [n|]; [|done]. specialize (Ho n eq_refl).
  destruct n; lia.
Qed.

Lemma addToPool_admits r m :
  Z.of_nat (length (pool m)) < maxPoolSize m →
  addToPool r m = (true, inc_additions (set_pool (pool m ++ [r]) m)).
Proof.
  intros Hlt. unfold addToPool.
  destruct (Z.ltb_spec (Z.of_nat (length (pool m))) (maxPoolSize m));
    [done | lia].
Qed.

Lemma addToPool_rejects r m :
  ¬ Z.of_nat (length (pool m)) < maxPoolSize m → addToPool r m = (false, m).
Proof.
  intros Hge. unfold addToPool.
  destruct (Z.ltb_spec (Z.of_nat (length (pool m))) (maxPoolSize m));
    [lia | done].
Qed.

(** C1. From a manager just constructed with a bound that is a size, every
    trace of engine operations ends in a state with
    [0 <= |pool| <= maxPoolSize]. [addToPool] appends the handle, bumps
    [additions] and returns true when [|pool| < maxPoolSize]; otherwise it
    returns false and changes nothing. *)
Theorem pool_size_bounded :
  (∀ c o now ops, valid_options o →
     0 ≤ Z.of_nat (length (pool (manager_after ops c o now)))
       ≤ maxPoolSize (manager_after ops c o now))
  ∧ (∀ r m, Z.of_nat (length (pool m)) < maxPoolSize m →
       addToPool r m = (true, inc_additions (set_pool (pool m ++ [r]) m)))
  ∧ (∀ r m, ¬ Z.of_nat (length (pool m)) < maxPoolSize m →
       addToPool r m = (false, m)).
Proof.
  split; [|split].
  - intros c o now ops Hvalid. unfold manager_after.
    destruct (run_evolves ops (initial c o now)) as [_ Hmax Hlen _].
    destruct (new_manager_fresh c o now) as (_ & Hm & Hp & _).
    unfold initial in *. simpl in Hmax, Hlen. rewrite Hp, Hm in Hlen.
    rewrite Hmax, Hm. simpl in Hlen.
    assert (0 ≤ or_default (opt_maxPoolSize o) 3).
    { apply or_default_nonneg; [lia|]. intros n Hn.
      unfold valid_options in Hvalid. by rewrite Hn in Hvalid. }
    lia.
  - apply addToPool_admits.
  - apply addToPool_rejects.
Qed.

Lemma pool_size_bounded_witness :
  (0 ≤ Z.of_nat (length (pool (manager_after full_trace ProcessManager (options_max 2) 0)))
     ≤ maxPoolSize (manager_after full_trace ProcessManager (options_max 2) 0))
  ∧ addToPool (handle "Y" 8002) manager_X =
      (true, inc_additions (set_pool (pool manager_X ++ [handle "Y" 8002]) manager_X))
  ∧ addToPool (handle "D" 8004) manager_ABC = (false, manager_ABC).
Proof.
  destruct pool_size_bounded as (Hinv & Hadd & Hfull).
  split; [|split].
  - apply Hinv. unfold valid_options. simpl. lia.
  - apply Hadd. simpl. lia.
  - apply Hfull. simpl. lia.
Defined.

(** C7. After every trace of operations from a fresh manager,
    [hits + misses = requests]; [selectFromPool()] adds one to [requests]
    and one to exactly one of [hits] and [misses]. *)
Theorem hits_plus_misses_is_requests :
  (∀ c o now ops,
     hits (metrics (manager_after ops c o now))
     + misses (metrics (manager_after ops c o now))
     = requests (metrics (manager_after ops c o now)))
  ∧ (∀ now m,
       let x := metrics m in
       let x' := metrics (snd (selectFromPool now m)) in
       requests x' = requests x + 1
       ∧ (hits x' = hits x + 1 ∧ misses x' = misses x
          ∨ hits x' = hits x ∧ misses x' = misses x + 1)).
Proof.
  split.
  - intros c o now ops. unfold manager_after.
    destruct (run_evolves ops (initial c o now)) as [_ _ _ Hcnt].
    destruct (new_manager_fresh c o now) as (_ & _ & _ & Hz & _).
    unfold initial in *. simpl in Hcnt. rewrite Hz in Hcnt. simpl in Hcnt. lia.
  - intros now m. unfold selectFromPool. simpl.
    destruct (Z.of_nat (length (pool m)) =? 0); simpl; lia.
Qed.

(** ** Shutdown *)

Lemma removeSignalListeners_none h : listeners (removeSignalListeners h) = [].
Proof.
  apply elem_of_nil_inv. intros s Hs.
  unfold removeSignalListeners, removeAllListeners in Hs. simpl in Hs.
  apply list_elem_of_filter in Hs as (H1 & Hs).
  apply list_elem_of_filter in Hs as (H2 & Hs).
  apply list_elem_of_filter in Hs as (H3 & _).
  by destruct s.
Qed.

Lemma terminate_all h (l : list ResourceInfo) :
  let h' := foldl (λ acc r, terminateResource r acc) h l in
  terminated h' = terminated h ++ map name l
  ∧ timersCreated h' = timersCreated h
  ∧ activeTimers h' = activeTimers h
  ∧ listeners h' = listeners h
  ∧ spawned h' = spawned h
  ∧ shutdownHookCalls h' = shutdownHookCalls h.
Proof.
  revert h. induction l as [|r l IH]; intros h; simpl.
  - by rewrite app_nil_r.
  - destruct (IH (terminateResource r h)) as (-> & -> & -> & -> & -> & ->).
    simpl. by rewrite <- app_assoc.
Qed.

Lemma clearInterval_removes id h : id ∉ activeTimers (clearInterval id h).
Proof.
  unfold clearInterval. simpl. intros Hin.
  by apply list_elem_of_filter in Hin as (Hne & _).
Qed.

(** The part of [shutdown()] the two versions share: flag, watcher, drain. *)
Lemma shutdown_core now m h m1 h1 m2 h2 :
  stopPoolWatcher (set_isShuttingDown true m, h) = (m1, h1) →
  stopAllResources now (m1, h1) = (m2, h2) →
  pool m2 = []
  ∧ watcherInterval m2 = None
  ∧ (∀ id, watcherInterval m = Some id → id ∉ activeTimers h2)
  ∧ isShuttingDown m2 = true
  ∧ terminated h2 = terminated h ++ map name (pool m)
  ∧ shutdownHookCalls h2 = shutdownHookCalls h.
Proof.
  unfold stopPoolWatcher, stopAllResources. simpl.
  intros E1 E2.
  assert (Hm1 : pool m1 = pool m ∧ isShuttingDown m1 = true
                ∧ watcherInterval m1 = None
                ∧ terminated h1 = terminated h
                ∧ shutdownHookCalls h1 = shutdownHookCalls h
                ∧ (∀ id, watcherInterval m = Some id → id ∉ activeTimers h1)).
  { destruct (watcherInterval m) as [id|] eqn:Hw; inversion E1; subst; simpl;
      repeat split; try done.
    intros ? [= <-]. apply clearInterval_removes. }
  destruct Hm1 as (Hp & Hf & Hw1 & Ht & Hk & Hid).
  rewrite <- Hp. rewrite <- Ht, <- Hk.
  destruct (pool m1) as [|r l] eqn:Hp1.
  - inversion E2; subst. simpl. rewrite app_nil_r. repeat split; done.
  - inversion E2; subst. simpl.
    pose proof (terminate_all (terminateResource r h1) l) as (Hterm & _ & Ha & _ & _ & Hc).
    simpl in Hterm, Ha, Hc. rewrite Hterm, Ha, Hc. simpl. rewrite <- app_assoc.
    repeat split; done.
Qed.

(** C4. What [shutdown()] leaves behind when called on a manager that is not
    shutting down: an empty pool, no eviction timer, no signal listener, the
    flag set, every pooled handle handed to [terminateResource]. The
    inherited [shutdown()] then runs [onShutdown()] once; the one
    [ProcessManager] overrides returns without running it. *)
Theorem shutdown_post_state :
  ∀ (now : Z) (w : World),
    isShuttingDown (fst w) = false →
    pool (fst (shutdown now w)) = []
    ∧ watcherInterval (fst (shutdown now w)) = None
    ∧ (∀ id, watcherInterval (fst w) = Some id →
         id ∉ activeTimers (snd (shutdown now w)))
    ∧ listeners (snd (shutdown now w)) = []
    ∧ isShuttingDown (fst (shutdown now w)) = true
    ∧ terminated (snd (shutdown now w)) =
        terminated (snd w) ++ map name (pool (fst w))
    ∧ shutdownHookCalls (snd (shutdown now w)) =
        match cls (fst w) with
        | FakeManager => S (shutdownHookCalls (snd w))
        | ProcessManager => shutdownHookCalls (snd w)
        end.
Proof.
  intros now [m h] Hs. cbn [fst snd] in *.
  unfold shutdown, BaseServerlessManager_shutdown, ProcessManager_shutdown.
  cbn [fst snd]. rewrite Hs.
  destruct (stopPoolWatcher _) as [m1 h1] eqn:E1.
  destruct (stopAllResources now (m1, h1)) as [m2 h2] eqn:E2.
  pose proof (shutdown_core now m h m1 h1 m2 h2 E1 E2)
    as (Hp & Hw & Ht & Hf & Hterm & Hk).
  destruct (cls m); cbn [fst snd];
    rewrite ?removeSignalListeners_none; repeat split; simpl; try done.
  - apply (removeSignalListeners_none h2).
  - by rewrite Hk.
Qed.

Lemma shutdown_post_state_witness :
  pool (fst (shutdown 10 running_process_manager)) = []
  ∧ watcherInterval (fst (shutdown 10 running_process_manager)) = None
  ∧ (∀ id, watcherInterval (fst running_process_manager) = Some id →
       id ∉ activeTimers (snd (shutdown 10 running_process_manager)))
  ∧ listeners (snd (shutdown 10 running_process_manager)) = []
  ∧ isShuttingDown (fst (shutdown 10 running_process_manager)) = true
  ∧ terminated (snd (shutdown 10 running_process_manager)) = [] ++ ["A"]
  ∧ shutdownHookCalls (snd (shutdown 10 running_process_manager)) = 0%nat.
Proof. apply (shutdown_post_state 10 running_process_manager). reflexivity. Defined.

(** The hook did run zero times on the process manager above, once on a
    [FakeManager]. *)
Example ProcessManager_shutdown_hook_calls :
  shutdownHookCalls (snd (shutdown 10 running_process_manager)) = 0%nat
  ∧ shutdownHookCalls
      (snd (shutdown 10 (new_manager FakeManager default_options 0))) = 1%nat.
Proof. split; reflexivity. Qed.

(** ** Admission while shutting down *)

(** What the engine does check of the flag: a call of the acquisition method
    that starts while the manager is shutting down throws at its first line
    and changes nothing, and a tick of the eviction timer returns at once. *)
Lemma acquire_rejected_when_shutting_down scriptPath e w :
  isShuttingDown (fst w) = true →
  getOrCreateProcessInPool scriptPath e w = (Thrown ShuttingDown, w).
Proof.
  intros Hs. unfold getOrCreateProcessInPool, acquire_begin. by rewrite Hs.
Qed.

Lemma watcherTick_idle_when_shutting_down now w :
  isShuttingDown (fst w) = true → watcherTick now w = w.
Proof. destruct w as [m h]. simpl. intros Hs. unfold watcherTick. by rewrite Hs. Qed.

(** [addToPool] itself never reads the flag. *)
Lemma addToPool_ignores_flag r m :
  addToPool r (set_isShuttingDown true m) =
    (fst (addToPool r m), set_isShuttingDown true (snd (addToPool r m))).
Proof. unfold addToPool. simpl. by destruct (_ <? _). Qed.

(** C3. The trace above ends with the flag set and the process created in
    flight admitted to the pool: the second [canCreateNewResource()] check
    passes on the drained pool and [addToPool] does not look at the flag.
    The handle is counted in [additions] and was never terminated. *)
Theorem inflight_creation_admitted_after_shutdown :
  let s := run race_trace (initial ProcessManager default_options 0) in
  let m := fst (fst s) in
  let h := snd (fst s) in
  isShuttingDown m = true
  ∧ pool m = [processInfo_of "process-8080-1000" 8080 child_4242 2000]
  ∧ additions (metrics m) = 1
  ∧ terminated h = []
  ∧ isShuttingDown (fst (fst (run (take 2 race_trace)
                                 (initial ProcessManager default_options 0)))) = true.
Proof. vm_compute. repeat split; reflexivity. Qed.

(** ** Zero capacity *)

(** [startPoolWatcher()] touches the two watcher fields and the timers only. *)
Lemma startPoolWatcher_frame w :
  pool (fst (startPoolWatcher w)) = pool (fst w)
  ∧ maxPoolSize (fst (startPoolWatcher w)) = maxPoolSize (fst w)
  ∧ metrics (fst (startPoolWatcher w)) = metrics (fst w)
  ∧ isShuttingDown (fst (startPoolWatcher w)) = isShuttingDown (fst w)
  ∧ spawned (snd (startPoolWatcher w)) = spawned (snd w).
Proof.
  destruct w as [m h]. unfold startPoolWatcher, poolWatcher.
  destruct (watcherStarted m); [done|]. simpl.
  by destruct (watcherInterval m).
Qed.


(** The guard [canCreateNewResource] does stop creation when the field
    [maxPoolSize] holds 0, the state the worker tests produce by assigning
    the field: on an empty pool the acquisition method throws [NoResource],
    calls [createProcess] not at all, adds one to [requests] and one to
    [misses], and the next call behaves the same. *)
Lemma zero_bound_field_blocks_creation :
  ∀ (scriptPath : option string) (e : AcquireEnv) (w : World),
    maxPoolSize (fst w) = 0 →
    Z.of_nat (length (pool (fst w))) ≤ maxPoolSize (fst w) →
    isShuttingDown (fst w) = false →
    falsy_path scriptPath = false →
    let res := fst (getOrCreateProcessInPool scriptPath e w) in
    let w' := snd (getOrCreateProcessInPool scriptPath e w) in
    res = Thrown NoResource
    ∧ spawned (snd w') = spawned (snd w)
    ∧ requests (metrics (fst w')) = requests (metrics (fst w)) + 1
    ∧ misses (metrics (fst w')) = misses (metrics (fst w)) + 1
    ∧ hits (metrics (fst w')) = hits (metrics (fst w))
    ∧ additions (metrics (fst w')) = additions (metrics (fst w))
    ∧ maxPoolSize (fst w') = 0
    ∧ pool (fst w') = []
    ∧ isShuttingDown (fst w') = false.
Proof.
  intros scriptPath e [m h] Hmax Hlen Hs Hpath. cbn [fst snd] in *.
  assert (Hp : pool m = []).
  { destruct (pool m); [done | simpl in Hlen; lia]. }
  unfold getOrCreateProcessInPool, acquire_begin. cbn [fst snd].
  rewrite Hs, Hpath.
  pose proof (startPoolWatcher_frame (updateLastRequestTime (t_request e) m, h))
    as (Fp & Fmax & Fmet & Fs & Fsp).
  destruct (startPoolWatcher _) as [m1 h1]. cbn [fst snd] in *.
  simpl in Fp, Fmax, Fmet, Fs.
  unfold canCreateNewResource, getPoolSize. rewrite Fp, Fmax, Hp, Hmax.
  simpl. unfold acquire_select, selectFromPool. simpl. rewrite Fp, Hp. simpl.
  rewrite Fmet, Fmax, Fs. repeat split; congruence.
Qed.

Lemma zero_bound_field_blocks_creation_example :
  let res := fst (getOrCreateProcessInPool (Some "app.js") sample_env zero_capacity_manager) in
  let w' := snd (getOrCreateProcessInPool (Some "app.js") sample_env zero_capacity_manager) in
  res = Thrown NoResource
  ∧ spawned (snd w') = spawned (snd zero_capacity_manager)
  ∧ requests (metrics (fst w')) = requests (metrics (fst zero_capacity_manager)) + 1
  ∧ misses (metrics (fst w')) = misses (metrics (fst zero_capacity_manager)) + 1
  ∧ hits (metrics (fst w')) = hits (metrics (fst zero_capacity_manager))
  ∧ additions (metrics (fst w')) = additions (metrics (fst zero_capacity_manager))
  ∧ maxPoolSize (fst w') = 0
  ∧ pool (fst w') = []
  ∧ isShuttingDown (fst w') = false.
Proof.
  apply (zero_bound_field_blocks_creation (Some "app.js") sample_env zero_capacity_manager);
    simpl; [reflexivity | lia | reflexivity | reflexivity].
Defined.

(** The constructor never produces that bound: an option of 0 is falsy and
    gives the default 3. *)
Lemma constructor_zero_bound_is_default c now :
  maxPoolSize (fst (new_manager c (options_max 0) now)) = 3.
Proof. by destruct c. Qed.

(** ** Metrics exposition *)

(** Removing by the name of the first handle removes that handle. *)
Lemma removeFromPool_head r rest m :
  pool m = r :: rest →
  removeFromPool (name r) m = (Some r, inc_removals (set_pool rest m)).
Proof.
  intros Hp. unfold removeFromPool. rewrite Hp.
  assert (Hf : list_find (λ r0, name r0 = name r) (r :: rest) = Some (0%nat, r)).
  { apply list_find_Some. split; [done|]. split; [done|]. intros j y _ Hj. lia. }
  by rewrite Hf.
Qed.

Lemma metric_sequence_state c o now h t1 t2 :
  valid_options o →
  let m := after_metric_sequence (fst (new_manager c o now)) h t1 t2 in
  cls m = c ∧ pool m = [] ∧ metrics m = mkMetrics 2 1 1 1 0 1.
Proof.
  intros Hvalid.
  destruct (new_manager_fresh c o now) as (Hc & Hmax & Hp & Hmet & _).
  assert (Hpos : 0 < or_default (opt_maxPoolSize o) 3).
  { unfold valid_options in Hvalid. unfold or_default.
    destruct (opt_maxPoolSize o) as [[| |]|]; lia. }
  revert Hc Hmax Hp Hmet. generalize (new_manager c o now).1.
  intros [c0 mx pci st p lrt ws wi sd met]. simpl. intros -> -> -> ->.
  unfold after_metric_sequence.
  rewrite addToPool_admits by (simpl; lia).
  cbn. erewrite removeFromPool_head by reflexivity. cbn. done.
Qed.

(** C9. From a fresh manager (its bound a size), after [addToPool(h)],
    [selectFromPool()], [removeFromPool(h.name)], [selectFromPool()], the
    exposition is the HELP line, the TYPE line and the labelled value line
    of each of [requests_total], [hits_total], [misses_total],
    [additions_total], [evictions_total], [removals_total] and [size],
    joined by newlines, with the values 2, 1, 1, 1, 0, 1 and 0. *)
Theorem metrics_exposition_after_sequence :
  ∀ c o now h t1 t2,
    valid_options o →
    let m := after_metric_sequence (fst (new_manager c o now)) h t1 t2 in
    metrics m = mkMetrics 2 1 1 1 0 1
    ∧ pool m = []
    ∧ metric_lines m = expected_lines c
    ∧ getPrometheusMetrics m = String.concat newline (expected_lines c).
Proof.
  intros c o now h t1 t2 Hvalid m.
  destruct (metric_sequence_state c o now h t1 t2 Hvalid) as (Hc & Hp & Hm).
  fold m in Hc, Hp, Hm.
  assert (Hl : metric_lines m = expected_lines c).
  { unfold metric_lines, getMetrics. rewrite Hc, Hp, Hm.
    destruct c; vm_compute; reflexivity. }
  unfold getPrometheusMetrics. rewrite Hl. done.
Qed.

Lemma metrics_exposition_after_sequence_witness :
  let m := after_metric_sequence
             (fst (new_manager ProcessManager default_options 0))
             (handle "A" 8001) 1000 2000 in
  metrics m = mkMetrics 2 1 1 1 0 1
  ∧ pool m = []
  ∧ metric_lines m = expected_lines ProcessManager
  ∧ getPrometheusMetrics m = String.concat newline (expected_lines ProcessManager).
Proof.
  apply (metrics_exposition_after_sequence ProcessManager default_options 0
           (handle "A" 8001) 1000 2000).
  unfold valid_options. simpl. exact I.
Defined.

(** ** The watcher starts once *)





(** * Pre-warming *)

Import PreWarm.

Section PreWarmFacts.
Variable createResource : string → nat → ResourceInfo.





(** A manager just constructed meets what the theorem below asks of its
    start state. *)
Lemma new_prewarming_fresh c o mn cfg now :
  let pw := new_prewarming c o mn cfg now in
  watcherStarted (fst (engine pw)) = false
  ∧ watcherInterval (fst (engine pw)) = None
  ∧ minPoolSize pw ≤ maxPoolSize (fst (engine pw))
  ∧ pool (fst (engine pw)) = [].
Proof.
  destruct (new_manager_fresh c o now) as (_ & _ & Hp & _ & _ & Hs & Hi).
  simpl. repeat split; try done. lia.
Qed.


End PreWarmFacts.



(** * Further properties of the engine *)

(** ** No counter goes down, and the pool is covered by the additions *)

#[global] Instance accounts_preorder : PreOrder accounts.
Proof.
  split.
  - intros m. constructor; try done; lia.
  - intros a b c [] []. constructor; try congruence; try lia. auto.
Qed.

Ltac account_now := constructor; simpl; try done; try lia.

Lemma length_delete_found {A} (l : list A) (i : nat) (x : A) :
  l !! i = Some x → (length (delete i l) = length l - 1 ∧ 1 ≤ length l)%nat.
Proof.
  intros Hx. rewrite length_delete by eauto.
  apply lookup_lt_Some in Hx. lia.
Qed.

Lemma set_pool_accounts p m :
  (length p ≤ length (pool m))%nat → accounts m (set_pool p m).
Proof. intros. account_now. Qed.

Lemma addToPool_accounts r m : accounts m (snd (addToPool r m)).
Proof.
  unfold addToPool.
  destruct (Z.ltb_spec (Z.of_nat (length (pool m))) (maxPoolSize m)); simpl.
  - account_now. rewrite length_app. simpl. lia.
  - reflexivity.
Qed.

Lemma removeFromPool_accounts nm m : accounts m (snd (removeFromPool nm m)).
Proof.
  unfold removeFromPool.
  destruct (list_find _ _) as [[i x]|] eqn:Hf; simpl; [|reflexivity].
  apply list_find_Some in Hf as (Hx & _).
  destruct (length_delete_found _ _ _ Hx). account_now.
Qed.

Lemma selectFromPool_accounts now m : accounts m (snd (selectFromPool now m)).
Proof.
  unfold selectFromPool. simpl.
  destruct (Z.of_nat (length (pool m)) =? 0); simpl; account_now.
Qed.

Lemma clearPool_accounts now m : accounts m (clearPool now m).
Proof. account_now. Qed.

Lemma poolWatcher_accounts w : accounts (fst w) (fst (poolWatcher w)).
Proof.
  destruct w as [m h]. unfold poolWatcher.
  destruct (watcherInterval m); simpl; [reflexivity | account_now].
Qed.

Lemma startPoolWatcher_accounts w : accounts (fst w) (fst (startPoolWatcher w)).
Proof.
  destruct w as [m h]. unfold startPoolWatcher, poolWatcher.
  destruct (watcherStarted m); [reflexivity|]. simpl.
  destruct (watcherInterval m); simpl; account_now.
Qed.

Lemma stopPoolWatcher_accounts w : accounts (fst w) (fst (stopPoolWatcher w)).
Proof.
  destruct w as [m h]. unfold stopPoolWatcher.
  destruct (watcherInterval m); simpl; [account_now | reflexivity].
Qed.

Lemma watcherTick_accounts now w : accounts (fst w) (fst (watcherTick now w)).
Proof.
  destruct w as [m h]. unfold watcherTick.
  destruct (isShuttingDown m); [reflexivity|].
  destruct (_ && _); [|reflexivity].
  destruct (pool m) eqn:E; simpl; [reflexivity|].
  account_now. rewrite E. simpl. lia.
Qed.

Lemma stopAllResources_accounts now w :
  accounts (fst w) (fst (stopAllResources now w)).
Proof.
  destruct w as [m h]. unfold stopAllResources.
  destruct (pool m); simpl; [reflexivity | account_now].
Qed.

Lemma shutdown_accounts now w : accounts (fst w) (fst (shutdown now w)).
Proof.
  assert (Hcore : ∀ w0 : World,
    accounts (fst w0)
      (fst (stopAllResources now
              (stopPoolWatcher (set_isShuttingDown true (fst w0), snd w0))))).
  { intros w0. etrans; [|apply stopAllResources_accounts].
    etrans; [|apply stopPoolWatcher_accounts]. account_now. }
  unfold shutdown, BaseServerlessManager_shutdown, ProcessManager_shutdown.
  specialize (Hcore w).
  destruct (cls w.1); destruct (isShuttingDown w.1); try reflexivity;
    destruct (stopPoolWatcher _) as [m1 h1];
    destruct (stopAllResources _ _) as [m2 h2]; exact Hcore.
Qed.

Lemma healthCheck_accounts m rep m' :
  healthCheck m = Some (rep, m') → accounts m m'.
Proof.
  rewrite healthCheck_eq. intros [= _ <-].
  apply set_pool_accounts, length_filter.
Qed.

Lemma acquire_begin_accounts scriptPath now p tname w :
  accounts (fst w) (fst (snd (acquire_begin scriptPath now p tname w))).
Proof.
  unfold acquire_begin.
  destruct (isShuttingDown w.1); [reflexivity|].
  destruct (falsy_path scriptPath); [reflexivity|].
  pose proof (startPoolWatcher_accounts (updateLastRequestTime now w.1, w.2)) as H.
  destruct (startPoolWatcher _) as [m1 h1]. simpl in H.
  assert (accounts w.1 m1) by (etrans; [|exact H]; account_now).
  destruct (canCreateNewResource m1); [destruct p|]; done.
Qed.

Lemma acquire_select_accounts tsel tused w :
  accounts (fst w) (fst (snd (acquire_select tsel tused w))).
Proof.
  destruct w as [m h]. unfold acquire_select.
  pose proof (selectFromPool_accounts tsel m) as H.
  destruct (selectFromPool tsel m) as [[r|] m1]; simpl in *; [|done].
  destruct (isResourceAlive (cls m1) r).
  - simpl. etrans; [exact H|]. apply set_pool_accounts.
    by rewrite length_alter.
  - pose proof (removeFromPool_accounts (name r) m1) as H2.
    destruct (removeFromPool (name r) m1) as [x m2]. simpl in H2.
    assert (accounts m m2) by (etrans; done).
    by destruct (pool m2).
Qed.

Lemma acquire_created_accounts r tsel tused w :
  accounts (fst w) (fst (snd (acquire_created r tsel tused w))).
Proof.
  destruct w as [m h]. unfold acquire_created.
  destruct (canCreateNewResource m).
  - pose proof (addToPool_accounts r m) as H.
    by destruct (addToPool r m).
  - apply (acquire_select_accounts tsel tused (m, terminateResource r h)).
Qed.

Lemma acquire_settled_accounts nm p outcome tsel tused w :
  accounts (fst w) (fst (snd (acquire_settled nm p outcome tsel tused w))).
Proof.
  unfold acquire_settled. destruct outcome as [[child t]|].
  - apply acquire_created_accounts.
  - apply acquire_select_accounts.
Qed.

Lemma getOrCreateProcessInPool_accounts scriptPath e w :
  accounts (fst w) (fst (snd (getOrCreateProcessInPool scriptPath e w))).
Proof.
  unfold getOrCreateProcessInPool.
  pose proof (acquire_begin_accounts scriptPath (t_request e) (freePort e)
                (t_name e) w) as H.
  destruct (acquire_begin _ _ _ _ _) as [[err|nm p|] w1]; simpl in H;
    [done | | ]; (etrans; [exact H|]).
  - apply acquire_settled_accounts.
  - apply acquire_select_accounts.
Qed.

Lemma step_accounts op s : accounts (fst (fst s)) (fst (fst (step op s))).
Proof.
  destruct s as [[m h] inflight]. destruct op; simpl.
  - apply addToPool_accounts.
  - apply removeFromPool_accounts.
  - apply selectFromPool_accounts.
  - apply (startPoolWatcher_accounts (m, h)).
  - apply (stopPoolWatcher_accounts (m, h)).
  - apply (poolWatcher_accounts (m, h)).
  - destruct (watcherInterval m); [|reflexivity].
    destruct (bool_decide _); [|reflexivity].
    apply (watcherTick_accounts now (m, h)).
  - destruct (healthCheck m) as [[rep m']|] eqn:E; [|reflexivity].
    simpl. by eapply healthCheck_accounts.
  - apply set_pool_accounts, length_delete_le.
  - apply clearPool_accounts.
  - apply (shutdown_accounts now (m, h)).
  - destruct (cls m); [reflexivity|].
    pose proof (acquire_begin_accounts scriptPath now port0 tname (m, h)) as H.
    by destruct (acquire_begin _ _ _ _ _) as [[err|nm q|] w1].
  - destruct (inflight !! k) as [[nm q]|]; [|reflexivity].
    apply (acquire_settled_accounts nm q outcome tsel tused (m, h)).
  - destruct (cls m); [reflexivity|].
    apply (getOrCreateProcessInPool_accounts scriptPath e (m, h)).
  - apply (stopAllResources_accounts now (m, h)).
  - account_now.
Qed.

Lemma run_accounts ops : ∀ s, accounts (fst (fst s)) (fst (fst (run ops s))).
Proof.
  induction ops as [|op ops IH]; intros s; simpl.
  - reflexivity.
  - etrans; [apply (step_accounts op s) | apply IH].
Qed.

(** X1. Whatever the state a trace starts in, none of the six counters is
    lower after the trace than before it. *)
Theorem counters_never_decrease :
  ∀ (ops : list Op) (s : Sys),
    let x := metrics (fst (fst s)) in
    let x' := metrics (fst (fst (run ops s))) in
    requests x ≤ requests x'
    ∧ hits x ≤ hits x'
    ∧ misses x ≤ misses x'
    ∧ additions x ≤ additions x'
    ∧ evictions x ≤ evictions x'
    ∧ removals x ≤ removals x'.
Proof.
  intros ops s. destruct (run_accounts ops s). simpl. repeat split; done.
Qed.

(** X2. After every trace from a fresh manager, the handles in the pool plus
    those counted as removed by name or evicted never exceed the handles
    counted as added (health checks, [clearPool] and the drain of
    [shutdown] drop handles without counting them). *)
Theorem additions_cover_pool :
  ∀ c o now ops,
    let m := manager_after ops c o now in
    removals (metrics m) + evictions (metrics m) + Z.of_nat (length (pool m))
      ≤ additions (metrics m)
    ∧ 0 ≤ removals (metrics m)
    ∧ 0 ≤ evictions (metrics m).
Proof.
  intros c o now ops. unfold manager_after.
  destruct (run_accounts ops (initial c o now)) as [_ _ _ _ _ _ _ _ He Hr Hb _].
  destruct (new_manager_fresh c o now) as (_ & _ & Hp & Hz & _).
  unfold initial in *. simpl in He, Hr, Hb. rewrite Hz, Hp in *. simpl in *.
  repeat split; lia.
Qed.

(** X3. The options are read once: after every trace the manager's class,
    pool bound, check interval and shutdown timeout are what the
    constructor computed, an absent or zero option giving the default
    (3, 10000, and 10000 or 5000 for a process manager); in particular none
    of the three is ever 0. *)
Theorem configuration_is_fixed :
  ∀ c o now ops,
    let m := manager_after ops c o now in
    cls m = c
    ∧ maxPoolSize m = or_default (opt_maxPoolSize o) 3
    ∧ poolCheckInterval m = or_default (opt_poolCheckInterval o) 10000
    ∧ shutdownTimeout m =
        or_default (opt_shutdownTimeout o)
          (match c with FakeManager => 10000 | ProcessManager => 5000 end)
    ∧ maxPoolSize m ≠ 0
    ∧ poolCheckInterval m ≠ 0
    ∧ shutdownTimeout m ≠ 0.
Proof.
  intros c o now ops. unfold manager_after.
  destruct (run_accounts ops (initial c o now)) as [Hc Hm Hi Ht _ _ _ _ _ _ _ _].
  unfold initial in *. simpl in Hc, Hm, Hi, Ht. simpl.
  rewrite Hc, Hm, Hi, Ht.
  assert (Hnz : ∀ x d, d ≠ 0 → or_default x d ≠ 0).
  { intros [[| |]|] d Hd; simpl; lia. }
  destruct c; simpl; repeat split; try done; apply Hnz; lia.
Qed.

(** ** Shutdown is final *)

Lemma shutdown_when_shutting_down now w :
  isShuttingDown (fst w) = true → shutdown now w = w.
Proof.
  intros Hs.
  unfold shutdown, BaseServerlessManager_shutdown, ProcessManager_shutdown.
  rewrite Hs. by destruct (cls w.1).
Qed.

Lemma shutdown_sets_flag now w : isShuttingDown (fst (shutdown now w)) = true.
Proof.
  destruct (isShuttingDown (fst w)) eqn:Hs.
  - by rewrite shutdown_when_shutting_down.
  - destruct w as [m h]. cbn [fst snd] in *.
    unfold shutdown, BaseServerlessManager_shutdown, ProcessManager_shutdown.
    cbn [fst snd]. rewrite Hs.
    destruct (stopPoolWatcher _) as [m1 h1] eqn:E1.
    destruct (stopAllResources now (m1, h1)) as [m2 h2] eqn:E2.
    pose proof (shutdown_core now m h m1 h1 m2 h2 E1 E2) as (_ & _ & _ & Hf & _).
    by destruct (cls m).
Qed.

(** X4. Once [shutdown()] has run, in whatever state, a second call changes
    nothing, every acquisition is rejected with [ShuttingDown] without any
    effect, a tick of the eviction timer does nothing, and no later
    operation resets the flag. *)
Theorem shutdown_is_final :
  ∀ (t1 : Z) (w : World),
    (∀ t2, shutdown t2 (shutdown t1 w) = shutdown t1 w)
    ∧ (∀ scriptPath e,
         getOrCreateProcessInPool scriptPath e (shutdown t1 w) =
           (Thrown ShuttingDown, shutdown t1 w))
    ∧ (∀ t, watcherTick t (shutdown t1 w) = shutdown t1 w)
    ∧ (∀ ops inflight,
         isShuttingDown (fst (fst (run ops (shutdown t1 w, inflight)))) = true).
Proof.
  intros t1 w. pose proof (shutdown_sets_flag t1 w) as Hf.
  split; [|split; [|split]].
  - intros t2. by apply shutdown_when_shutting_down.
  - intros scriptPath e. by apply acquire_rejected_when_shutting_down.
  - intros t. by apply watcherTick_idle_when_shutting_down.
  - intros ops inflight.
    destruct (run_accounts ops (shutdown t1 w, inflight)) as [_ _ _ _ _ _ _ _ _ _ _ Hflag].
    by apply Hflag.
Qed.

(** ** Removal by name *)

(** X5. [removeFromPool(name)] returns null exactly when no pooled handle has
    that name, and then changes nothing. Otherwise it returns the first
    handle with that name, deletes that one entry (the others stay in
    order, later duplicates of the name included), and adds one to
    [removals] only. *)
Theorem removeFromPool_first_match :
  ∀ (nm : string) (m : Manager),
    (fst (removeFromPool nm m) = None ↔ ∀ r, r ∈ pool m → name r ≠ nm)
    ∧ (fst (removeFromPool nm m) = None → snd (removeFromPool nm m) = m)
    ∧ (∀ r, fst (removeFromPool nm m) = Some r →
         ∃ i, pool m !! i = Some r
              ∧ name r = nm
              ∧ (∀ j y, pool m !! j = Some y → (j < i)%nat → name y ≠ nm)
              ∧ snd (removeFromPool nm m) =
                  inc_removals (set_pool (take i (pool m) ++ drop (S i) (pool m)) m)
              ∧ length (pool (snd (removeFromPool nm m))) = (length (pool m) - 1)%nat).
Proof.
  intros nm m. unfold removeFromPool.
  destruct (list_find (λ r, name r = nm) (pool m)) as [[i x]|] eqn:Hf; simpl.
  - apply list_find_Some in Hf as (Hx & Hn & Hfirst).
    split; [|split].
    + split; [done|]. intros Hall. exfalso.
      apply (Hall x); [|done]. by eapply list_elem_of_lookup_2.
    + done.
    + intros r [= <-]. exists i. repeat split; try done.
      * by rewrite delete_take_drop.
      * by rewrite length_delete by eauto.
  - apply list_find_None in Hf.
    split; [|split]; try done.
    split; [|done]. intros _ r Hr.
    by apply (proj1 (Forall_forall _ _) Hf r).
Qed.

Lemma removeFromPool_first_match_witness :
  (fst (removeFromPool "Z" manager_ABC) = None → snd (removeFromPool "Z" manager_ABC) = manager_ABC)
  ∧ ∃ i, pool manager_ABC !! i = Some (handle "B" 8002)
         ∧ name (handle "B" 8002) = "B"
         ∧ (∀ j y, pool manager_ABC !! j = Some y → (j < i)%nat → name y ≠ "B")
         ∧ snd (removeFromPool "B" manager_ABC) =
             inc_removals (set_pool (take i (pool manager_ABC)
                                     ++ drop (S i) (pool manager_ABC)) manager_ABC)
         ∧ length (pool (snd (removeFromPool "B" manager_ABC))) =
             (length (pool manager_ABC) - 1)%nat.
Proof.
  split.
  - apply (removeFromPool_first_match "Z" manager_ABC).
  - apply (removeFromPool_first_match "B" manager_ABC). reflexivity.
Defined.

(** X6. Round trip: when the pool has room and holds no handle of that name,
    [addToPool(r)] followed by [removeFromPool(r.name)] returns [r] and
    restores the pool; only [additions] and [removals] moved, by one
    each. *)
Theorem addToPool_removeFromPool_round_trip :
  ∀ (r : ResourceInfo) (m : Manager),
    Z.of_nat (length (pool m)) < maxPoolSize m →
    name_free (name r) m →
    let m1 := snd (addToPool r m) in
    fst (addToPool r m) = true
    ∧ fst (removeFromPool (name r) m1) = Some r
    ∧ snd (removeFromPool (name r) m1) = inc_removals (inc_additions m)
    ∧ pool (snd (removeFromPool (name r) m1)) = pool m.
Proof.
  intros r m Hroom Hfree m1. unfold m1.
  rewrite addToPool_admits by done. cbn [fst snd].
  unfold removeFromPool. cbn [pool inc_additions set_pool set_metrics].
  assert (Hf : list_find (λ r0, name r0 = name r) (pool m ++ [r])
               = Some (length (pool m), r)).
  { apply list_find_Some. split; [|split].
    - rewrite lookup_app_r by lia. by rewrite Nat.sub_diag.
    - done.
    - intros j y Hy Hj. rewrite lookup_app_l in Hy by lia.
      apply (Hfree y). by eapply list_elem_of_lookup_2. }
  rewrite Hf. cbn [fst snd].
  assert (Hd : delete (length (pool m)) (pool m ++ [r]) = pool m).
  { rewrite delete_take_drop, take_app_length.
    rewrite drop_ge by (rewrite length_app; simpl; lia). apply app_nil_r. }
  rewrite Hd. destruct m as [c mx pci st p lrt ws wi sd met]. simpl. done.
Qed.

Lemma addToPool_removeFromPool_round_trip_witness :
  let m1 := snd (addToPool (handle "Y" 8002) manager_X) in
  fst (addToPool (handle "Y" 8002) manager_X) = true
  ∧ fst (removeFromPool "Y" m1) = Some (handle "Y" 8002)
  ∧ snd (removeFromPool "Y" m1) = inc_removals (inc_additions manager_X)
  ∧ pool (snd (removeFromPool "Y" m1)) = pool manager_X.
Proof.
  apply (addToPool_removeFromPool_round_trip (handle "Y" 8002) manager_X).
  - simpl. lia.
  - intros r Hr. apply list_elem_of_singleton in Hr as ->. discriminate.
Defined.

(** ** Health check, again *)

(** X7. After a health check every pooled handle answers the liveness probe,
    no live handle was lost, and a second health check finds nothing to
    remove: it reports 0 dead handles and leaves the manager as it is. *)
Theorem healthCheck_idempotent :
  ∀ m : Manager,
    ∃ rep m',
      healthCheck m = Some (rep, m')
      ∧ (∀ r, r ∈ pool m' ↔ r ∈ pool m ∧ isResourceAlive (cls m) r = true)
      ∧ healthCheck m' =
          Some (mkReport (total rep) 0 (healthy rep), m').
Proof.
  intros m. eexists _, _. split; [apply healthCheck_eq|].
  split.
  - intros r. cbn [pool set_pool]. rewrite list_elem_of_filter.
    unfold alive. tauto.
  - rewrite healthCheck_eq. cbn [cls pool set_pool isShuttingDown].
    assert (Hff : filter (alive (cls m)) (filter (alive (cls m)) (pool m))
                  = filter (alive (cls m)) (pool m)).
    { by apply list_filter_filter_r. }
    assert (Hdd : filter (dead (cls m)) (filter (alive (cls m)) (pool m)) = []).
    { apply elem_of_nil_inv. intros r Hr.
      apply list_elem_of_filter in Hr as (Hd & Hr).
      apply list_elem_of_filter in Hr as (Ha & _).
      unfold alive, dead in *. congruence. }
    rewrite Hff, Hdd. simpl.
    by destruct m.
Qed.

(** ** What an acquisition leaves alone *)

#[global] Instance same_settings_equiv : Equivalence same_settings.
Proof.
  split.
  - intros m. by constructor.
  - intros a b []. constructor; congruence.
  - intros a b c [] []. constructor; congruence.
Qed.

Lemma set_pool_same_settings p m : same_settings m (set_pool p m).
Proof. by constructor. Qed.

Lemma addToPool_same_settings r m : same_settings m (snd (addToPool r m)).
Proof. unfold addToPool. destruct (_ <? _); by constructor. Qed.

Lemma removeFromPool_same_settings nm m :
  same_settings m (snd (removeFromPool nm m)).
Proof.
  unfold removeFromPool. destruct (list_find _ _) as [[i x]|]; by constructor.
Qed.

Lemma selectFromPool_same_settings now m :
  same_settings m (snd (selectFromPool now m)).
Proof. unfold selectFromPool. simpl. destruct (_ =? _); by constructor. Qed.

Lemma acquire_select_same_settings tsel tused m h :
  same_settings m (fst (snd (acquire_select tsel tused (m, h))))
  ∧ snd (snd (acquire_select tsel tused (m, h))) = h.
Proof.
  unfold acquire_select.
  pose proof (selectFromPool_same_settings tsel m) as H.
  destruct (selectFromPool tsel m) as [[r|] m1]; simpl in *; [|done].
  destruct (isResourceAlive (cls m1) r); simpl.
  - split; [|done]. etrans; [exact H|]. apply set_pool_same_settings.
  - pose proof (removeFromPool_same_settings (name r) m1) as H2.
    destruct (removeFromPool (name r) m1) as [x m2]. simpl in H2.
    assert (same_settings m m2) by (etrans; done).
    by destruct (pool m2).
Qed.

Lemma acquire_created_same_settings r tsel tused m h :
  same_settings m (fst (snd (acquire_created r tsel tused (m, h)))).
Proof.
  unfold acquire_created. destruct (canCreateNewResource m).
  - pose proof (addToPool_same_settings r m) as H. by destruct (addToPool r m).
  - apply acquire_select_same_settings.
Qed.

Lemma acquire_settled_same_settings nm p outcome tsel tused m h :
  same_settings m (fst (snd (acquire_settled nm p outcome tsel tused (m, h)))).
Proof.
  unfold acquire_settled. destruct outcome as [[child t]|].
  - apply acquire_created_same_settings.
  - apply acquire_select_same_settings.
Qed.

(** [startPoolWatcher()] leaves the rest of the manager and of the host
    alone, and leaves the watcher marked as started. *)
Lemma startPoolWatcher_rest w :
  cls (fst (startPoolWatcher w)) = cls (fst w)
  ∧ poolCheckInterval (fst (startPoolWatcher w)) = poolCheckInterval (fst w)
  ∧ lastRequestTime (fst (startPoolWatcher w)) = lastRequestTime (fst w)
  ∧ watcherStarted (fst (startPoolWatcher w)) = true
  ∧ terminated (snd (startPoolWatcher w)) = terminated (snd w)
  ∧ listeners (snd (startPoolWatcher w)) = listeners (snd w)
  ∧ shutdownHookCalls (snd (startPoolWatcher w)) = shutdownHookCalls (snd w).
Proof.
  destruct w as [m h]. unfold startPoolWatcher, poolWatcher.
  destruct (watcherStarted m) eqn:Hs; [done|]. simpl.
  by destruct (watcherInterval m).
Qed.

(** The first segment of an acquisition that passes the two guards. *)
Lemma acquire_begin_passes scriptPath now fp tname m h :
  isShuttingDown m = false → falsy_path scriptPath = false →
  ∃ m1 h1,
    startPoolWatcher (updateLastRequestTime now m, h) = (m1, h1)
    ∧ pool m1 = pool m ∧ maxPoolSize m1 = maxPoolSize m
    ∧ metrics m1 = metrics m ∧ cls m1 = cls m
    ∧ isShuttingDown m1 = false
    ∧ poolCheckInterval m1 = poolCheckInterval m
    ∧ lastRequestTime m1 = now
    ∧ watcherStarted m1 = true
    ∧ spawned h1 = spawned h ∧ terminated h1 = terminated h
    ∧ acquire_begin scriptPath now fp tname (m, h) =
        if canCreateNewResource m1 then
          match fp with
          | Some p => (BeginCreating (processName_of p tname) p,
                       (m1, spawn (processName_of p tname) h1))
          | None => (BeginSelecting, (m1, h1))
          end
        else (BeginSelecting, (m1, h1)).
Proof.
  intros Hs Hp.
  pose proof (startPoolWatcher_frame (updateLastRequestTime now m, h))
    as (F1 & F2 & F3 & F4 & F5).
  pose proof (startPoolWatcher_rest (updateLastRequestTime now m, h))
    as (G1 & G2 & G3 & G4 & G5 & _).
  unfold acquire_begin. cbn [fst snd]. rewrite Hs, Hp.
  destruct (startPoolWatcher _) as [m1 h1]. cbn [fst snd] in *.
  simpl in F1, F2, F3, F4, G1, G2, G3.
  exists m1, h1. repeat split; try done. congruence.
Qed.

(** ** The paths of an acquisition *)



(** Selection reads the class, the pool and the counters only. *)
Lemma acquire_select_reads tsel tused m1 h1 m h :
  cls m1 = cls m → pool m1 = pool m → metrics m1 = metrics m →
  fst (acquire_select tsel tused (m1, h1)) = fst (acquire_select tsel tused (m, h))
  ∧ pool (fst (snd (acquire_select tsel tused (m1, h1)))) =
      pool (fst (snd (acquire_select tsel tused (m, h))))
  ∧ metrics (fst (snd (acquire_select tsel tused (m1, h1)))) =
      metrics (fst (snd (acquire_select tsel tused (m, h)))).
Proof.
  intros Hc Hp Hm.
  destruct m1 as [c1 mx1 pci1 st1 p1 lrt1 ws1 wi1 sd1 met1].
  destruct m as [c mx pci st p lrt ws wi sd met].
  simpl in Hc, Hp, Hm. subst c1 p1 met1.
  unfold acquire_select, selectFromPool, removeFromPool. simpl.
  destruct (Z.of_nat (length p) =? 0); [done|].
  destruct (js_index p _) as [r|]; [|done]. simpl.
  destruct (isResourceAlive c r); [done|].
  destruct (list_find _ p) as [[i x]|]; simpl.
  - by destruct (delete i p).
  - by destruct p.
Qed.

(** C8. A manager cannot be configured with a bound of 0: the constructor
    reads the option [maxPoolSize: 0] as absent and takes 3. The first
    acquisition on such a manager, with a free port and a child that comes
    up, calls [createProcess] and returns the new process; [requests] and
    [misses] stay 0 and the pool holds one process. *)
Theorem zero_capacity_option_is_ignored :
  ∀ (o : Options) (now : Z) (scriptPath : option string) (e : AcquireEnv)
    (p : Z) (child : ChildProcess) (t : Z),
    opt_maxPoolSize o = Some 0 →
    falsy_path scriptPath = false →
    freePort e = Some p →
    childReady e = Some (child, t) →
    let w := new_manager ProcessManager o now in
    let res := getOrCreateProcessInPool scriptPath e w in
    let info := processInfo_of (processName_of p (t_name e)) p child t in
    maxPoolSize (fst w) = 3
    ∧ canCreateNewResource (fst w) = true
    ∧ fst res = Returned info
    ∧ spawned (snd (snd res)) = [name info]
    ∧ pool (fst (snd res)) = [info]
    ∧ requests (metrics (fst (snd res))) = 0
    ∧ misses (metrics (fst (snd res))) = 0.
Proof.
  intros o now scriptPath e p child t Ho Hp Hport Hchild w res info.
  assert (Hmax : maxPoolSize (fst w) = 3).
  { unfold w. destruct o; simpl in *. by subst. }
  assert (Hpool : pool (fst w) = []) by done.
  assert (Hs : isShuttingDown (fst w) = false) by done.
  destruct w as [m h] eqn:Ew. cbn [fst snd] in *.
  destruct (acquire_begin_passes scriptPath (t_request e) (freePort e) (t_name e)
              m h Hs Hp)
    as (m1 & h1 & _ & F1 & F2 & F3 & F4 & F5 & F6 & F7 & F8 & F9 & F10 & Hb).
  assert (Hcan : canCreateNewResource m1 = true).
  { unfold canCreateNewResource, getPoolSize. by rewrite F1, F2, Hpool, Hmax. }
  split; [done|]. split.
  { unfold canCreateNewResource, getPoolSize. by rewrite Hpool, Hmax. }
  unfold res, getOrCreateProcessInPool. rewrite Hb, Hcan, Hport, Hchild.
  unfold acquire_settled, acquire_created. rewrite Hcan.
  rewrite addToPool_admits by (rewrite F1, F2, Hpool, Hmax; done).
  cbn [fst snd pool metrics inc_additions set_pool set_metrics
       requests misses spawned spawn].
  rewrite F1, F3, F9, Hpool.
  assert (Hh : spawned h = []) by (by injection Ew as <- <-).
  assert (Hm : metrics m = zero_metrics) by (by injection Ew as <- <-).
  rewrite Hh, Hm. repeat split; done.
Qed.

Lemma zero_capacity_option_is_ignored_witness :
  let w := new_manager ProcessManager (options_max 0) 0 in
  let res := getOrCreateProcessInPool (Some "app.js") sample_env w in
  let info := processInfo_of (processName_of 8080 (t_name sample_env)) 8080
                child_4242 1200 in
  maxPoolSize (fst w) = 3
  ∧ canCreateNewResource (fst w) = true
  ∧ fst res = Returned info
  ∧ spawned (snd (snd res)) = [name info]
  ∧ pool (fst (snd res)) = [info]
  ∧ requests (metrics (fst (snd res))) = 0
  ∧ misses (metrics (fst (snd res))) = 0.
Proof.
  apply (zero_capacity_option_is_ignored (options_max 0) 0 (Some "app.js")
           sample_env 8080 child_4242 1200); reflexivity.
Defined.

(** X9. When no port is free or the child does not come up, the failure is
    logged and nothing else: the call answers what selection alone answers
    on the same pool and counters, the counters move as selection moves
    them, and nothing is terminated. On an empty pool that is
    [NoResource], with one more request and one more miss. *)
Theorem acquire_falls_back_to_selection :
  ∀ scriptPath e m h,
    isShuttingDown m = false →
    falsy_path scriptPath = false →
    freePort e = None ∨ childReady e = None →
    let res := getOrCreateProcessInPool scriptPath e (m, h) in
    let sel := acquire_select (t_select e) (t_used e) (m, h) in
    fst res = fst sel
    ∧ pool (fst (snd res)) = pool (fst (snd sel))
    ∧ metrics (fst (snd res)) = metrics (fst (snd sel))
    ∧ terminated (snd (snd res)) = terminated h
    ∧ (pool m = [] →
         fst res = Thrown NoResource
         ∧ pool (fst (snd res)) = []
         ∧ metrics (fst (snd res)) = metrics (inc_misses (inc_requests m))).
Proof.
  intros scriptPath e m h Hs Hp Hfail res sel.
  destruct (acquire_begin_passes scriptPath (t_request e) (freePort e) (t_name e)
              m h Hs Hp)
    as (m1 & h1 & _ & F1 & F2 & F3 & F4 & F5 & F6 & F7 & F8 & F9 & F10 & Hb).
  assert (Hres : ∃ h2, res = acquire_select (t_select e) (t_used e) (m1, h2)
                       ∧ terminated h2 = terminated h).
  { unfold res, getOrCreateProcessInPool. rewrite Hb.
    destruct (canCreateNewResource m1); [|by exists h1].
    destruct (freePort e) as [p|] eqn:Hport; [|by exists h1].
    destruct Hfail as [?|Hchild]; [done|]. rewrite Hchild.
    unfold acquire_settled. by eexists. }
  destruct Hres as (h2 & -> & Ht).
  destruct (acquire_select_reads (t_select e) (t_used e) m1 h2 m h F4 F1 F3)
    as (R1 & R2 & R3).
  destruct (acquire_select_same_settings (t_select e) (t_used e) m1 h2) as (_ & Hh).
  rewrite R1, R2, R3, Hh.
  split; [done|]. split; [done|]. split; [done|]. split; [done|].
  intros Hempty. unfold sel, acquire_select, selectFromPool.
  cbn [pool inc_requests set_metrics]. rewrite Hempty. simpl.
  by rewrite Hempty.
Qed.

Lemma acquire_falls_back_to_selection_witness :
  let e := mkAcquireEnv 1000 None 1000 None 1200 1200 in
  let m := fst (new_manager ProcessManager default_options 0) in
  let h := snd (new_manager ProcessManager default_options 0) in
  let res := getOrCreateProcessInPool (Some "app.js") e (m, h) in
  fst res = Thrown NoResource
  ∧ pool (fst (snd res)) = []
  ∧ metrics (fst (snd res)) = metrics (inc_misses (inc_requests m)).
Proof.
  apply (acquire_falls_back_to_selection (Some "app.js")
           (mkAcquireEnv 1000 None 1000 None 1200 1200)
           (fst (new_manager ProcessManager default_options 0))
           (snd (new_manager ProcessManager default_options 0)));
    try reflexivity.
  by left.
Defined.

(** Selection on a pool of one handle. *)
Lemma acquire_select_single tsel tused m h r :
  pool m = [r] →
  acquire_select tsel tused (m, h) =
    if isResourceAlive (cls m) r
    then (Returned (set_lastUsed tused r),
          (set_pool [set_lastUsed tused r] (inc_hits (inc_requests m)), h))
    else (Thrown NoResource,
          (inc_removals (set_pool [] (inc_hits (inc_requests m))), h)).
Proof.
  intros Hp. destruct m as [c mx pci st p lrt ws wi sd met].
  simpl in Hp. subst p.
  unfold acquire_select, selectFromPool.
  lazy -[Z.rem Z.div removeFromPool isResourceAlive name].
  rewrite Z.rem_1_r. lazy -[removeFromPool isResourceAlive name].
  destruct (isResourceAlive c r); [reflexivity|].
  erewrite removeFromPool_head by reflexivity. reflexivity.
Qed.

(** X10. Two acquisitions overlap on a fresh process manager whose bound is
    1, and both children come up. The first is admitted; the second finds
    the pool full, is terminated and never counted: [additions] is 1, both
    were spawned, only the second was terminated. The second caller is
    then served from the pool: it gets the first process if that one is
    alive, and otherwise the first is removed and the pool is empty. *)
Theorem overlapping_acquisitions_admit_one :
  ∀ sp t0 t0' p1 p2 tn1 tn2 c1 c2 t1 t2 ts1 tu1 ts2 tu2 now,
    sp ≠ "" →
    let s := run (overlapping_acquisitions sp t0 t0' p1 p2 tn1 tn2 c1 c2
                    t1 t2 ts1 tu1 ts2 tu2)
                 (initial ProcessManager (options_max 1) now) in
    let m := fst (fst s) in
    let h := snd (fst s) in
    let first := processInfo_of (processName_of p1 tn1) p1 c1 t1 in
    let second := processInfo_of (processName_of p2 tn2) p2 c2 t2 in
    additions (metrics m) = 1
    ∧ spawned h = [name first; name second]
    ∧ terminated h = [name second]
    ∧ snd s = []
    ∧ requests (metrics m) = 1 ∧ hits (metrics m) = 1 ∧ misses (metrics m) = 0
    ∧ (killed c1 = false →
         pool m = [set_lastUsed tu2 first] ∧ removals (metrics m) = 0)
    ∧ (killed c1 = true → pool m = [] ∧ removals (metrics m) = 1).
Proof.
  intros sp t0 t0' p1 p2 tn1 tn2 c1 c2 t1 t2 ts1 tu1 ts2 tu2 now Hsp.
  assert (Hf : falsy_path (Some sp) = false)
    by (simpl; by apply bool_decide_eq_false).
  destruct c1 as [pid1 k1], c2 as [pid2 k2].
  unfold run, overlapping_acquisitions, initial. cbn [foldl].
  cbv -[pretty String.app falsy_path acquire_select].
  rewrite !Hf.
  rewrite (acquire_select_single ts2 tu2 _ _
             (mkResource ("process-" +:+ pretty p1 +:+ "-" +:+ pretty tn1) p1
                (Some (mkChild pid1 k1)) t1 t1)) by reflexivity.
  cbv -[pretty String.app].
  destruct k1; cbv -[pretty String.app]; repeat split; done.
Qed.

Lemma overlapping_acquisitions_admit_one_witness :
  let s := run (overlapping_acquisitions "app.js" 1000 1001 8080 8081 1000 1001
                  child_4242 child_4242 1500 1600 1500 1500 1600 1600)
               (initial ProcessManager (options_max 1) 0) in
  additions (metrics (fst (fst s))) = 1
  ∧ terminated (snd (fst s)) = ["process-8081-1001"]
  ∧ pool (fst (fst s)) =
      [set_lastUsed 1600 (processInfo_of "process-8080-1000" 8080 child_4242 1500)].
Proof.
  destruct (overlapping_acquisitions_admit_one "app.js" 1000 1001 8080 8081 1000
              1001 child_4242 child_4242 1500 1600 1500 1500 1600 1600 0)
    as (H1 & _ & H3 & _ & _ & _ & _ & H8 & _); [discriminate|].
  split; [exact H1|]. split; [exact H3|]. apply H8. reflexivity.
Defined.

Lemma selectFromPool_some now m r :
  fst (selectFromPool now m) = Some r →
  ∃ i, pool m !! i = Some r
       ∧ i = Z.to_nat (Z.rem (now / 1000) (Z.of_nat (length (pool m))))
       ∧ snd (selectFromPool now m) = inc_hits (inc_requests m).
Proof.
  unfold selectFromPool. cbn [pool inc_requests set_metrics].
  destruct (Z.of_nat (length (pool m)) =? 0); [done|]. cbn [fst snd].
  unfold js_index. destruct (_ <? 0); [done|]. intros Hr. by eexists.
Qed.

Lemma acquire_select_returns_pooled tsel tused w r :
  fst (acquire_select tsel tused w) = Returned r →
  r ∈ pool (fst (snd (acquire_select tsel tused w))).
Proof.
  destruct w as [m h]. unfold acquire_select.
  destruct (selectFromPool tsel m) as [[sel|] m1] eqn:Hsel; [|done].
  pose proof (selectFromPool_some tsel m sel) as Hs.
  rewrite Hsel in Hs. destruct (Hs eq_refl) as (i & Hi & Heq & Hm1).
  cbn [snd] in Hm1. subst m1.
  cbn [cls pool inc_hits inc_requests set_metrics].
  destruct (isResourceAlive (cls m) sel).
  - cbn [fst snd pool set_pool]. intros [= <-]. rewrite <- Heq.
    apply list_elem_of_lookup. exists i.
    by rewrite list_lookup_alter_eq, Hi.
  - destruct (removeFromPool _ _) as [x m2].
    destruct (pool m2) as [|first rest] eqn:Hp; [done|].
    cbn [fst snd]. intros [= <-]. rewrite Hp. apply list_elem_of_here.
Qed.

(** X11. Whenever an acquisition returns a handle, that handle is in the
    pool when the call returns: created, selected (with its [lastUsed]
    already stamped), or taken from the head after a dead one was
    removed. *)
Theorem acquired_handle_is_pooled :
  ∀ scriptPath e w r,
    fst (getOrCreateProcessInPool scriptPath e w) = Returned r →
    r ∈ pool (fst (snd (getOrCreateProcessInPool scriptPath e w))).
Proof.
  intros scriptPath e w r. unfold getOrCreateProcessInPool.
  destruct (acquire_begin _ _ _ _ _) as [[err|nm p|] w1]; [done| |].
  - unfold acquire_settled. destruct (childReady e) as [[child t]|].
    + unfold acquire_created. destruct w1 as [m1 h1].
      destruct (canCreateNewResource m1) eqn:Hcan.
      * unfold canCreateNewResource, getPoolSize in Hcan.
        apply Z.ltb_lt in Hcan. rewrite addToPool_admits by done.
        cbn [fst snd pool inc_additions set_pool set_metrics].
        intros [= <-]. apply elem_of_app. right. apply list_elem_of_here.
      * apply acquire_select_returns_pooled.
    + apply acquire_select_returns_pooled.
  - apply acquire_select_returns_pooled.
Qed.

Lemma acquired_handle_is_pooled_witness :
  processInfo_of (processName_of 8080 1000) 8080 child_4242 1200
  ∈ pool (fst (snd (getOrCreateProcessInPool (Some "app.js") sample_env
                      (new_manager ProcessManager default_options 0)))).
Proof.
  apply (acquired_handle_is_pooled (Some "app.js") sample_env
           (new_manager ProcessManager default_options 0)).
  reflexivity.
Defined.

Lemma map_name_alter_lastUsed (l : list ResourceInfo) (k : nat) (t : Z) :
  map name (alter (set_lastUsed t) k l) = map name l.
Proof.
  revert k. induction l as [|x l IH]; intros [|k]; try done.
  - change (name x :: map name (alter (set_lastUsed t) k l) = name x :: map name l).
    by rewrite IH.
Qed.

(** X12. Selection with the liveness probe. A live selected handle is
    returned with [lastUsed] stamped, in the pool as in the result; the
    pool keeps its size and its names. A dead selected handle has still
    been counted as a hit; it is removed by name ([removals] + 1) and the
    head of what remains is returned without being probed, [NoResource]
    if nothing remains. *)
Theorem acquire_select_probes_selected :
  ∀ tsel tused m h r,
    fst (selectFromPool tsel m) = Some r →
    let res := acquire_select tsel tused (m, h) in
    let m' := fst (snd res) in
    requests (metrics m') = requests (metrics m) + 1
    ∧ hits (metrics m') = hits (metrics m) + 1
    ∧ misses (metrics m') = misses (metrics m)
    ∧ (isResourceAlive (cls m) r = true →
         fst res = Returned (set_lastUsed tused r)
         ∧ map name (pool m') = map name (pool m)
         ∧ removals (metrics m') = removals (metrics m))
    ∧ (isResourceAlive (cls m) r = false →
         pool m' = pool (snd (removeFromPool (name r) m))
         ∧ removals (metrics m') = removals (metrics m) + 1
         ∧ fst res = match pool m' with
                     | first :: _ => Returned first
                     | [] => Thrown NoResource
                     end).
Proof.
  intros tsel tused m h r Hsel res m'. unfold m', res. clear m' res.
  destruct (selectFromPool_some tsel m r Hsel) as (i & Hi & Heq & Hm1).
  unfold acquire_select.
  destruct (selectFromPool tsel m) as [sel m1]. cbn [fst snd] in *. subst sel m1.
  cbn [cls pool inc_hits inc_requests set_metrics].
  destruct (isResourceAlive (cls m) r) eqn:Hlive.
  - cbn [fst snd pool set_pool metrics inc_hits inc_requests set_metrics
         requests hits misses removals].
    repeat split; try done; try lia.
    apply map_name_alter_lastUsed.
  - assert (Hfound : ∃ j x, list_find (λ r0, name r0 = name r) (pool m) = Some (j, x)).
    { destruct (list_find (λ r0, name r0 = name r) (pool m)) as [[j x]|] eqn:Hf;
        [by eexists _, _|].
      apply list_find_None in Hf.
      exfalso. apply (proj1 (Forall_forall _ _) Hf r); [|done].
      by eapply list_elem_of_lookup_2. }
    destruct Hfound as (j & x & Hf).
    unfold removeFromPool. cbn [pool inc_hits inc_requests set_metrics].
    rewrite Hf.
    cbn [fst snd pool set_pool inc_removals metrics inc_hits inc_requests
         set_metrics requests hits misses removals].
    destruct (delete j (pool m)) eqn:Hd; cbn [fst snd pool set_pool inc_removals
         metrics inc_hits inc_requests set_metrics requests hits misses removals];
      rewrite ?Hd; repeat split; try done; try lia.
Qed.

Lemma acquire_select_probes_selected_witness :
  (let res := acquire_select 2000000 2000500 (manager_ABC, empty_host) in
   fst res = Returned (set_lastUsed 2000500 (handle "C" 8003))
   ∧ map name (pool (fst (snd res))) = map name (pool manager_ABC)
   ∧ removals (metrics (fst (snd res))) = removals (metrics manager_ABC))
  ∧ (let res := acquire_select 0 500 (manager_DA, empty_host) in
     pool (fst (snd res)) = pool (snd (removeFromPool "D" manager_DA))
     ∧ removals (metrics (fst (snd res))) = removals (metrics manager_DA) + 1
     ∧ fst res = match pool (fst (snd res)) with
                 | first :: _ => Returned first
                 | [] => Thrown NoResource
                 end).
Proof.
  split.
  - apply (acquire_select_probes_selected 2000000 2000500 manager_ABC empty_host
             (handle "C" 8003)); reflexivity.
  - apply (acquire_select_probes_selected 0 500 manager_DA empty_host
             (killed_handle "D" 8001)); reflexivity.
Defined.

(** ** Idle eviction and the request clock *)

(** X13. An acquisition that passes the two guards stamps the request time,
    whatever path it then takes: a tick of the eviction timer within
    [poolCheckInterval] of that time evicts nothing. *)
Theorem no_eviction_right_after_acquisition :
  ∀ scriptPath e m h now,
    isShuttingDown m = false →
    falsy_path scriptPath = false →
    now - t_request e ≤ poolCheckInterval m →
    let w' := snd (getOrCreateProcessInPool scriptPath e (m, h)) in
    lastRequestTime (fst w') = t_request e
    ∧ watcherTick now w' = w'.
Proof.
  intros scriptPath e m h now Hs Hp Hsoon w'.
  destruct (acquire_begin_passes scriptPath (t_request e) (freePort e) (t_name e)
              m h Hs Hp)
    as (m1 & h1 & _ & _ & _ & _ & _ & _ & F6 & F7 & _ & _ & _ & Hb).
  assert (Hsame : same_settings m1 (fst w')).
  { unfold w', getOrCreateProcessInPool. rewrite Hb.
    destruct (canCreateNewResource m1); [destruct (freePort e)|].
    - apply acquire_settled_same_settings.
    - apply acquire_select_same_settings.
    - apply acquire_select_same_settings. }
  destruct Hsame as [_ _ Hi _ Hl _ _ _].
  assert (Hlast : lastRequestTime (fst w') = t_request e) by congruence.
  split; [done|].
  destruct w' as [m' h']. cbn [fst] in *. unfold watcherTick.
  destruct (isShuttingDown m'); [done|].
  destruct (Z.ltb_spec (poolCheckInterval m') (now - lastRequestTime m')) as [Hlt|_].
  - rewrite Hi, F6, Hlast in Hlt. lia.
  - by rewrite andb_false_r.
Qed.

Lemma no_eviction_right_after_acquisition_witness :
  let w' := snd (getOrCreateProcessInPool (Some "app.js") sample_env
                   (new_manager ProcessManager default_options 0)) in
  lastRequestTime (fst w') = t_request sample_env
  ∧ watcherTick 11000 w' = w'.
Proof.
  apply (no_eviction_right_after_acquisition (Some "app.js") sample_env
           (fst (new_manager ProcessManager default_options 0))
           (snd (new_manager ProcessManager default_options 0)) 11000);
    first [reflexivity | simpl; lia].
Defined.

(** X14. Without requests in between, [k] idle ticks (each later than
    [poolCheckInterval] after the last request) on a pool of at least [k]
    handles evict the [k] oldest handles, in insertion order: they are
    handed to [terminateResource] in that order, [evictions] grows by [k],
    and the rest of the pool stays. Ticks beyond the pool size do
    nothing. *)
Theorem idle_ticks_evict_in_order :
  ∀ (ts : list Z) (m : Manager) (h : Host),
    isShuttingDown m = false →
    (∀ t, t ∈ ts → poolCheckInterval m < t - lastRequestTime m) →
    let w' := watcherTicks ts (m, h) in
    let k := length ts in
    pool (fst w') = drop k (pool m)
    ∧ terminated (snd w') = terminated h ++ map name (take k (pool m))
    ∧ evictions (metrics (fst w')) =
        evictions (metrics m) + Z.of_nat (Nat.min k (length (pool m)))
    ∧ removals (metrics (fst w')) = removals (metrics m).
Proof.
  intros ts. induction ts as [|t ts IH]; intros m h Hs Hidle.
  - cbn. rewrite drop_0, app_nil_r. repeat split; lia.
  - assert (Ht : poolCheckInterval m < t - lastRequestTime m)
      by (apply Hidle, list_elem_of_here).
    assert (Hrest : ∀ t', t' ∈ ts → poolCheckInterval m < t' - lastRequestTime m)
      by (intros t' Ht'; by apply Hidle, list_elem_of_further).
    change (watcherTicks (t :: ts) (m, h))
      with (watcherTicks ts (watcherTick t (m, h))).
    destruct (pool m) as [|r rest] eqn:Hp.
    + assert (Hnoop : watcherTick t (m, h) = (m, h))
        by (unfold watcherTick; rewrite Hs, Hp; reflexivity).
      rewrite Hnoop.
      specialize (IH m h Hs Hrest). cbn zeta in IH. rewrite Hp in IH.
      rewrite drop_nil, take_nil in IH.
      destruct IH as (I1 & I2 & I3 & I4).
      cbn zeta. rewrite I1, I2, I3, I4, drop_nil, take_nil.
      rewrite !Nat.min_0_r. repeat split; done.
    + assert (Hstep : watcherTick t (m, h) =
                      (inc_evictions (set_pool rest m), terminateResource r h)).
      { unfold watcherTick. rewrite Hs, Hp. simpl length.
        destruct (Z.ltb_spec 0 (Z.of_nat (S (length rest)))); [|lia].
        destruct (Z.ltb_spec (poolCheckInterval m) (t - lastRequestTime m)); [|lia].
        reflexivity. }
      rewrite Hstep.
      specialize (IH (inc_evictions (set_pool rest m)) (terminateResource r h) Hs Hrest).
      cbn [fst snd pool set_pool inc_evictions set_metrics metrics evictions
           removals terminated terminateResource] in IH.
      cbn zeta in IH. destruct IH as (I1 & I2 & I3 & I4).
      cbn zeta. rewrite I1, I2, I3, I4. simpl. rewrite <- app_assoc. simpl.
      repeat split; try done. lia.
Qed.

Lemma idle_ticks_evict_in_order_witness :
  let m := set_lastRequestTime 0 manager_ABC in
  let w' := watcherTicks [10001; 20001] (m, empty_host) in
  pool (fst w') = drop 2 (pool m)
  ∧ terminated (snd w') = [] ++ map name (take 2 (pool m))
  ∧ evictions (metrics (fst w')) = 0 + Z.of_nat (Nat.min 2 3)
  ∧ removals (metrics (fst w')) = 0.
Proof.
  apply (idle_ticks_evict_in_order [10001; 20001]
           (set_lastRequestTime 0 manager_ABC) empty_host).
  - reflexivity.
  - intros t Ht. simpl.
    apply elem_of_cons in Ht as [->|Ht]; [lia|].
    apply list_elem_of_singleton in Ht as ->. lia.
Defined.

(** ** The eviction timer *)

Lemma startPoolWatcher_watch w :
  watch_fields (startPoolWatcher w) = start_watch (watch_fields w).
Proof.
  destruct w as [m h]. destruct m; simpl.
  unfold startPoolWatcher, poolWatcher, watch_fields, start_watch. simpl.
  repeat case_match; simplify_eq/=; done.
Qed.

Lemma poolWatcher_watch w :
  watch_fields (poolWatcher w) = install_watch (watch_fields w).
Proof.
  destruct w as [m h]. destruct m; simpl.
  unfold poolWatcher, watch_fields, install_watch. simpl.
  repeat case_match; simplify_eq/=; done.
Qed.

Lemma stopPoolWatcher_watch w :
  watch_fields (stopPoolWatcher w) = stop_watch (watch_fields w).
Proof.
  destruct w as [m h]. destruct m; simpl.
  unfold stopPoolWatcher, watch_fields, stop_watch. simpl.
  repeat case_match; simplify_eq/=; done.
Qed.

Lemma watch_fields_frame (w w' : World) :
  same_settings (fst w) (fst w') →
  timersCreated (snd w') = timersCreated (snd w) →
  activeTimers (snd w') = activeTimers (snd w) →
  watch_fields w' = watch_fields w.
Proof. intros [] H1 H2. unfold watch_fields. congruence. Qed.

Lemma stopAllResources_watch now w :
  watch_fields (stopAllResources now w) = watch_fields w.
Proof.
  destruct w as [m h]. unfold stopAllResources.
  destruct (pool m) as [|r l]; [done|].
  pose proof (terminate_all h (r :: l)) as (_ & H1 & H2 & _).
  unfold watch_fields. cbn [fst snd] in *. by rewrite H1, H2.
Qed.

Lemma shutdown_watch now w :
  watch_fields (shutdown now w) = watch_fields w
  ∨ watch_fields (shutdown now w) = stop_watch (watch_fields w).
Proof.
  destruct (isShuttingDown (fst w)) eqn:Hs.
  - left. by rewrite shutdown_when_shutting_down.
  - right. destruct w as [m h]. cbn [fst] in Hs.
    pose proof (stopPoolWatcher_watch (set_isShuttingDown true m, h)) as H1.
    pose proof (stopAllResources_watch now
                  (stopPoolWatcher (set_isShuttingDown true m, h))) as H2.
    unfold shutdown, BaseServerlessManager_shutdown, ProcessManager_shutdown.
    cbn [fst snd]. rewrite Hs.
    destruct (stopPoolWatcher _) as [m1 h1].
    destruct (stopAllResources now (m1, h1)) as [m2 h2].
    rewrite H1 in H2. unfold watch_fields in *. cbn [fst snd] in *.
    by destruct (cls m).
Qed.

Lemma acquire_begin_watch scriptPath now p tname w :
  watch_fields (snd (acquire_begin scriptPath now p tname w)) = watch_fields w
  ∨ watch_fields (snd (acquire_begin scriptPath now p tname w))
    = start_watch (watch_fields w).
Proof.
  unfold acquire_begin.
  destruct (isShuttingDown w.1); [by left|].
  destruct (falsy_path scriptPath); [by left|]. right.
  pose proof (startPoolWatcher_watch (updateLastRequestTime now w.1, w.2)) as H.
  destruct (startPoolWatcher _) as [m1 h1].
  destruct w as [m h]. unfold watch_fields in *. cbn [fst snd] in *.
  destruct (canCreateNewResource m1); [destruct p|]; done.
Qed.

Lemma acquire_settled_watch nm p outcome tsel tused w :
  watch_fields (snd (acquire_settled nm p outcome tsel tused w)) = watch_fields w.
Proof.
  destruct w as [m h].
  assert (Hsel : ∀ h0, timersCreated h0 = timersCreated h →
            activeTimers h0 = activeTimers h →
            watch_fields (snd (acquire_select tsel tused (m, h0))) = watch_fields (m, h)).
  { intros h0 H1 H2.
    destruct (acquire_select_same_settings tsel tused m h0) as (Hs & Hh).
    apply watch_fields_frame; cbn [fst snd]; [done | by rewrite Hh | by rewrite Hh]. }
  unfold acquire_settled. destruct outcome as [[child t]|]; [|by apply Hsel].
  unfold acquire_created. destruct (canCreateNewResource m).
  - pose proof (addToPool_same_settings (processInfo_of nm p child t) m) as Hs.
    destruct (addToPool _ m) as [b m1]. by apply watch_fields_frame.
  - by apply Hsel.
Qed.

(** Every operation leaves the watcher bookkeeping alone, or does to it
    what [startPoolWatcher()] or [stopPoolWatcher()] does; a direct call of
    [poolWatcher()] is the one exception. *)
Lemma step_watch op s :
  let x := watch_fields (fst s) in
  let x' := watch_fields (fst (step op s)) in
  x' = x ∨ x' = start_watch x ∨ x' = stop_watch x
  ∨ (op = OpPoolWatcher ∧ x' = install_watch x).
Proof.
  destruct s as [[m h] inflight]. destruct op; cbn [step fst snd].
  - left. apply watch_fields_frame; [apply addToPool_same_settings|done..].
  - left. apply watch_fields_frame; [apply removeFromPool_same_settings|done..].
  - left. apply watch_fields_frame; [apply selectFromPool_same_settings|done..].
  - right. left. apply startPoolWatcher_watch.
  - right. right. left. apply stopPoolWatcher_watch.
  - right. right. right. split; [done|]. apply poolWatcher_watch.
  - left. destruct (watcherInterval m) eqn:Hi; [|done].
    destruct (bool_decide _); [|done]. cbn [fst].
    unfold watcherTick. destruct (isShuttingDown m); [done|].
    destruct (_ && _); [|done]. destruct (pool m); [done|].
    by apply watch_fields_frame.
  - left. destruct (healthCheck m) as [[rep m']|] eqn:E; [|done].
    rewrite healthCheck_eq in E. injection E as _ <-.
    by apply watch_fields_frame.
  - left. by apply watch_fields_frame.
  - left. done.
  - destruct (shutdown_watch now (m, h)) as [H|H]; [by left | by right; right; left].
  - destruct (cls m); [by left|].
    pose proof (acquire_begin_watch scriptPath now port0 tname (m, h)) as H.
    destruct (acquire_begin _ _ _ _ _) as [[err|nm q|] w1]; cbn [fst snd] in *;
      destruct H as [H|H]; auto.
  - left. destruct (inflight !! k) as [[nm q]|]; [|done].
    apply (acquire_settled_watch nm q outcome tsel tused (m, h)).
  - destruct (cls m); [by left|]. cbn [fst].
    unfold getOrCreateProcessInPool.
    pose proof (acquire_begin_watch scriptPath (t_request e) (freePort e)
                  (t_name e) (m, h)) as H.
    destruct (acquire_begin _ _ _ _ _) as [[err|nm q|] w1]; cbn [fst snd] in *.
    + destruct H as [H|H]; auto.
    + rewrite acquire_settled_watch. destruct H as [H|H]; auto.
    + destruct w1 as [m1 h1].
      destruct (acquire_select_same_settings (t_select e) (t_used e) m1 h1) as (Hs & Hh).
      assert (Hw : watch_fields (snd (acquire_select (t_select e) (t_used e) (m1, h1)))
                   = watch_fields (m1, h1)).
      { apply watch_fields_frame; cbn [fst snd]; [done | by rewrite Hh..]. }
      rewrite Hw. destruct H as [H|H]; auto.
  - left. apply stopAllResources_watch.
  - left. done.
Qed.

Lemma timer_held_watch (w w' : World) :
  timer_held w →
  watch_fields w' = watch_fields w
  ∨ watch_fields w' = start_watch (watch_fields w)
  ∨ watch_fields w' = stop_watch (watch_fields w)
  ∨ watch_fields w' = install_watch (watch_fields w) →
  timer_held w'.
Proof.
  unfold timer_held, watch_fields, start_watch, stop_watch, install_watch.
  destruct w as [m h], w' as [m' h']. cbn [fst snd].
  intros Ha H.
  destruct (watcherStarted m) eqn:Hs, (watcherInterval m) as [id|] eqn:Hi;
    destruct H as [H|[H|[H|H]]]; injection H as _ H2 _ H4;
    rewrite H2, H4, ?Ha; try done.
  all: cbn; case_decide; [congruence|done].
Qed.

Lemma timer_ok_watch (w w' : World) :
  timer_ok w →
  watch_fields w' = watch_fields w
  ∨ watch_fields w' = start_watch (watch_fields w)
  ∨ watch_fields w' = stop_watch (watch_fields w) →
  timer_ok w'.
Proof.
  unfold timer_ok, watch_fields, start_watch, stop_watch.
  destruct w as [m h], w' as [m' h']. cbn [fst snd].
  intros (Ha & Hc & Hn) H.
  destruct (watcherStarted m) eqn:Hs, (watcherInterval m) as [id|] eqn:Hi;
    destruct H as [H|[H|H]]; injection H as -> -> -> ->;
    try (specialize (Hn eq_refl) as [Hn1 Hn2]); try done;
    rewrite ?Ha; repeat split; try done; try lia.
  cbn. case_decide; [congruence|done].
Qed.

Lemma watcher_stopped_watch (w w' : World) :
  watcher_stopped w →
  watch_fields w' = watch_fields w
  ∨ watch_fields w' = start_watch (watch_fields w)
  ∨ watch_fields w' = stop_watch (watch_fields w) →
  watcher_stopped w'.
Proof.
  unfold watcher_stopped, watch_fields, start_watch, stop_watch.
  destruct w as [m h], w' as [m' h']. cbn [fst snd].
  intros (Hs & Hi & Ha) H. rewrite Hs, Hi, Ha in H.
  destruct H as [H|[H|H]]; by simplify_eq.
Qed.

Lemma run_timer_held ops :
  ∀ s, timer_held (fst s) → timer_held (fst (run ops s)).
Proof.
  induction ops as [|op ops IH]; intros s Hs; [done|].
  apply IH. eapply timer_held_watch; [exact Hs|].
  destruct (step_watch op s) as [H|[H|[H|[_ H]]]]; auto.
Qed.

Lemma run_timer_ok ops :
  OpPoolWatcher ∉ ops →
  ∀ s, timer_ok (fst s) → timer_ok (fst (run ops s)).
Proof.
  induction ops as [|op ops IH]; intros Hno s Hs; [done|].
  apply not_elem_of_cons in Hno as [Hop Hno].
  apply (IH Hno). eapply timer_ok_watch; [exact Hs|].
  destruct (step_watch op s) as [H|[H|[H|[H _]]]]; auto. by subst.
Qed.

Lemma run_watcher_stopped ops :
  OpPoolWatcher ∉ ops →
  ∀ s, watcher_stopped (fst s) →
       watcher_stopped (fst (run ops s))
       ∧ timersCreated (snd (fst (run ops s))) = timersCreated (snd (fst s)).
Proof.
  induction ops as [|op ops IH]; intros Hno s Hs; [done|].
  apply not_elem_of_cons in Hno as [Hop Hno].
  assert (Hw : watch_fields (fst (step op s)) = watch_fields (fst s)).
  { destruct Hs as (H1 & H2 & H3).
    destruct (step_watch op s) as [H|[H|[H|[H _]]]]; [done| | |by subst];
      rewrite H; unfold watch_fields, start_watch, stop_watch;
      by rewrite H1, H2. }
  assert (Hs1 : watcher_stopped (fst (step op s))).
  { eapply watcher_stopped_watch; [exact Hs|]. by left. }
  destruct (IH Hno (step op s) Hs1) as (Hr & Hc).
  split; [exact Hr|]. change (run (op :: ops) s) with (run ops (step op s)).
  rewrite Hc. unfold watch_fields in Hw. by simplify_eq.
Qed.

(** X15. After every trace from a fresh manager, direct calls of
    [poolWatcher()] included, the active timers are exactly the one
    [watcherInterval] holds: a manager never runs two eviction timers at
    once. In a trace without a direct call of [poolWatcher()],
    [setInterval] is called at most once. *)
Theorem at_most_one_timer :
  ∀ c o now ops,
    let w := fst (run ops (initial c o now)) in
    activeTimers (snd w) =
      match watcherInterval (fst w) with Some id => [id] | None => [] end
    ∧ (length (activeTimers (snd w)) ≤ 1)%nat
    ∧ (OpPoolWatcher ∉ ops → (timersCreated (snd w) ≤ 1)%nat).
Proof.
  intros c o now ops.
  assert (H : timer_held (fst (run ops (initial c o now)))).
  { apply run_timer_held. by destruct c. }
  cbn zeta. unfold timer_held in H. rewrite H.
  split; [reflexivity|]. split.
  - destruct (watcherInterval _); simpl; lia.
  - intros Hno.
    assert (Hok : timer_ok (fst (run ops (initial c o now)))).
    { apply (run_timer_ok ops Hno).
      destruct c; unfold timer_ok; simpl; repeat split; lia || done. }
    by destruct Hok as (_ & Hc & _).
Qed.

(** X16. Once the watcher was started and then stopped (by
    [stopPoolWatcher()] or by [shutdown()]), [startPoolWatcher()] and new
    acquisitions never install a timer again, because they only look at
    [watcherStarted], which stays true: in a trace without a direct call of
    [poolWatcher()] the watcher stays stopped and [setInterval] is not
    called. A direct call of [poolWatcher()] is the one way back: it tests
    [watcherInterval] only and installs a new timer. *)
Theorem stopped_watcher_restarts_only_by_poolWatcher :
  ∀ (ops : list Op) (s : Sys),
    watcher_stopped (fst s) →
    (OpPoolWatcher ∉ ops →
       watcher_stopped (fst (run ops s))
       ∧ activeTimers (snd (fst (run ops s))) = []
       ∧ timersCreated (snd (fst (run ops s))) = timersCreated (snd (fst s)))
    ∧ watcherInterval (fst (fst (step OpPoolWatcher s)))
      = Some (timersCreated (snd (fst s)))
    ∧ activeTimers (snd (fst (step OpPoolWatcher s)))
      = [timersCreated (snd (fst s))]
    ∧ timersCreated (snd (fst (step OpPoolWatcher s)))
      = S (timersCreated (snd (fst s))).
Proof.
  intros ops s Hs. split.
  - intros Hno. destruct (run_watcher_stopped ops Hno s Hs) as (Hr & Hc).
    split; [exact Hr|]. split; [|exact Hc]. by destruct Hr as (_ & _ & ?).
  - destruct s as [[m h] inflight]. destruct Hs as (_ & Hi & Ha).
    cbn [fst snd step] in *. unfold poolWatcher. rewrite Hi. simpl.
    by rewrite Ha.
Qed.

Lemma stopped_watcher_restarts_only_by_poolWatcher_witness :
  let s := run [OpStartPoolWatcher; OpStopPoolWatcher]
             (initial ProcessManager default_options 0) in
  let ops := [OpAcquire (Some "app.js") sample_env; OpStartPoolWatcher] in
  (OpPoolWatcher ∉ ops →
     watcher_stopped (fst (run ops s))
     ∧ activeTimers (snd (fst (run ops s))) = []
     ∧ timersCreated (snd (fst (run ops s))) = timersCreated (snd (fst s)))
  ∧ watcherInterval (fst (fst (step OpPoolWatcher s)))
    = Some (timersCreated (snd (fst s)))
  ∧ activeTimers (snd (fst (step OpPoolWatcher s)))
    = [timersCreated (snd (fst s))]
  ∧ timersCreated (snd (fst (step OpPoolWatcher s)))
    = S (timersCreated (snd (fst s))).
Proof.
  apply (stopped_watcher_restarts_only_by_poolWatcher
           [OpAcquire (Some "app.js") sample_env; OpStartPoolWatcher]
           (run [OpStartPoolWatcher; OpStopPoolWatcher]
              (initial ProcessManager default_options 0))).
  repeat split; reflexivity.
Defined.

(** ** Creation of a child *)

Lemma createProcess_event_latch ev cr m :
  (if isResolved cr then length (settleCalls cr) = 1%nat
   else settleCalls cr = []) →
  let cr' := fst (createProcess_event ev (cr, m)) in
  (if isResolved cr' then length (settleCalls cr') = 1%nat
   else settleCalls cr' = [])
  ∧ (isResolved cr = true → settleCalls cr' = settleCalls cr ∧ isResolved cr' = true)
  ∧ cr_name cr' = cr_name cr ∧ cr_port cr' = cr_port cr ∧ cr_child cr' = cr_child cr.
Proof.
  intros H. destruct cr as [nm p ch res armed listening calls].
  simpl in H. destruct ev, res, armed, listening; simpl; subst;
    repeat split; try done.
Qed.

Lemma createProcess_events_snoc evs ev s :
  createProcess_events (evs ++ [ev]) s
  = createProcess_event ev (createProcess_events evs s).
Proof. unfold createProcess_events. by rewrite foldl_app. Qed.

Lemma createProcess_events_latch evs nm p child m :
  let cr := fst (createProcess_events evs (createProcess_start nm p child, m)) in
  (if isResolved cr then length (settleCalls cr) = 1%nat
   else settleCalls cr = [])
  ∧ cr_name cr = nm ∧ cr_port cr = p ∧ cr_child cr = child
  ∧ (∀ r, inl r ∈ settleCalls cr →
       ∃ t, EvStdout t ∈ evs ∧ r = processInfo_of nm p child t)
  ∧ (inr CreationTimeout ∈ settleCalls cr → EvTimeout ∈ evs)
  ∧ (inr ChildError ∈ settleCalls cr → EvError ∈ evs).
Proof.
  induction evs as [|ev evs IH] using rev_ind.
  - simpl. repeat split; try done; intros; by apply elem_of_nil in H.
  - rewrite createProcess_events_snoc. cbn zeta in *.
    destruct (createProcess_events evs _) as [cr m1]. cbn [fst] in IH.
    destruct IH as (Hl & Hn & Hp & Hc & Hres & Hto & Herr).
    pose proof (createProcess_event_latch ev cr m1 Hl) as (Hl' & Hkeep & Hn' & Hp' & Hc').
    cbn zeta in *.
    split; [exact Hl'|]. split; [congruence|]. split; [congruence|].
    split; [congruence|].
    destruct (isResolved cr) eqn:Hres0.
    + destruct (Hkeep eq_refl) as (Hsame & _). rewrite Hsame.
      split; [|split].
      * intros r Hr. destruct (Hres r Hr) as (t & Ht & ->).
        exists t. split; [|done]. apply elem_of_app. by left.
      * intros Hr. apply elem_of_app. left. by apply Hto.
      * intros Hr. apply elem_of_app. left. by apply Herr.
    + destruct cr as [nm0 p0 ch0 res armed listening calls].
      simpl in *. subst.
      destruct ev, armed, listening; simpl;
        (split; [|split]);
        try (intros r Hr); try (intros Hr);
        try (by apply elem_of_nil in Hr);
        try (apply list_elem_of_singleton in Hr; simplify_eq);
        try (eexists; split; [|reflexivity]);
        apply elem_of_app; right; apply list_elem_of_singleton; done.
Qed.


Lemma createProcess_quiet_after_close evs cr m :
  isResolved cr = false → timerArmed cr = false → settleCalls cr = [] →
  (∀ ev, ev ∈ evs → ev ≠ EvError ∧ ∀ t, ev ≠ EvStdout t) →
  let cr' := fst (createProcess_events evs (cr, m)) in
  isResolved cr' = false ∧ timerArmed cr' = false ∧ settleCalls cr' = [].
Proof.
  revert cr m. induction evs as [|ev evs IH]; intros cr m Hr Ha Hc Hevs; [done|].
  change (createProcess_events (ev :: evs) (cr, m))
    with (createProcess_events evs (createProcess_event ev (cr, m))).
  destruct (Hevs ev) as (Hne & Hns); [apply elem_of_cons; by left|].
  assert (Hrest : ∀ ev0, ev0 ∈ evs → ev0 ≠ EvError ∧ ∀ t, ev0 ≠ EvStdout t).
  { intros ev0 H0. apply Hevs. apply elem_of_cons. by right. }
  destruct cr as [nm p ch res armed listening calls]. simpl in Hr, Ha, Hc. subst.
  destruct ev as [|t| | |]; simpl.
  - by apply IH.
  - by destruct (Hns t).
  - by apply IH.
  - done.
  - by apply IH.
Qed.

(** X18. A child that closes before its first stdout output leaves the
    promise of [createProcess] pending: the [close] handler clears the
    creation timer and does not reject, so unless an [error] event or a
    stdout output still follows, neither [resolve] nor [reject] is ever
    called, and the timeout can no longer fire. *)
Theorem close_before_output_never_settles :
  ∀ (before after : list ChildEvent) (nm : string) (p : Z)
    (child : ChildProcess) (m : Manager),
    (∀ ev, ev ∈ before → ev = EvStderr) →
    (∀ ev, ev ∈ after → ev ≠ EvError ∧ ∀ t, ev ≠ EvStdout t) →
    let cr := fst (createProcess_events (before ++ EvClose :: after)
                     (createProcess_start nm p child, m)) in
    settleCalls cr = [] ∧ isResolved cr = false ∧ timerArmed cr = false.
Proof.
  intros before after nm p child m Hb Ha.
  assert (Hq : ∀ s, createProcess_events before s = s).
  { induction before as [|ev evs IH]; intros s; [done|].
    change (createProcess_events (ev :: evs) s)
      with (createProcess_events evs (createProcess_event ev s)).
    rewrite (Hb ev) by (apply elem_of_cons; by left).
    destruct s as [cr0 m0]. simpl. apply IH.
    intros ev0 H0. apply Hb. apply elem_of_cons. by right. }
  assert (Hsplit : createProcess_events (before ++ EvClose :: after)
                     (createProcess_start nm p child, m)
                   = createProcess_events after
                       (mkCreation nm p child false false true [],
                        snd (removeFromPool nm m))).
  { unfold createProcess_events at 1. rewrite foldl_app.
    fold (createProcess_events before (createProcess_start nm p child, m)).
    by rewrite Hq. }
  cbn zeta. rewrite Hsplit.
  destruct (createProcess_quiet_after_close after
              (mkCreation nm p child false false true [])
              (snd (removeFromPool nm m))) as (H1 & H2 & H3); done.
Qed.

Lemma close_before_output_never_settles_witness :
  let cr := fst (createProcess_events
                   ([EvStderr] ++ EvClose :: [EvTimeout; EvStderr; EvClose])
                   (createProcess_start "process-4242-7" 4242 child_4242,
                    manager_ABC)) in
  settleCalls cr = [] ∧ isResolved cr = false ∧ timerArmed cr = false.
Proof.
  apply (close_before_output_never_settles [EvStderr]
           [EvTimeout; EvStderr; EvClose] "process-4242-7" 4242 child_4242
           manager_ABC).
  - intros ev H. by apply list_elem_of_singleton in H.
  - intros ev H. repeat (apply elem_of_cons in H as [->|H]; [done|]).
    by apply elem_of_nil in H.
Defined.

Lemma removeFromPool_others nm m :
  filter (λ r, name r ≠ nm) (pool (snd (removeFromPool nm m)))
  = filter (λ r, name r ≠ nm) (pool m)
  ∧ same_settings m (snd (removeFromPool nm m)).
Proof.
  split; [|apply removeFromPool_same_settings].
  unfold removeFromPool.
  destruct (list_find _ _) as [[i x]|] eqn:Hf; [|done]. simpl.
  apply list_find_Some in Hf as (Hx & Hn & _).
  rewrite delete_take_drop.
  rewrite <- (take_drop_middle (pool m) i x Hx) at 3.
  rewrite !filter_app. f_equal.
  by rewrite filter_cons_False by (intros Hne; by apply Hne).
Qed.

(** X19. The handlers [createProcess] installs touch the pool only through
    [removeFromPool(processName)]: whatever events arrive, every handle with
    another name stays pooled, in order; the settings and the watcher fields
    stay as they were; and no counter other than [removals] moves. *)
Theorem child_events_touch_only_own_handle :
  ∀ (evs : list ChildEvent) (nm : string) (p : Z) (child : ChildProcess)
    (m : Manager),
    let m' := snd (createProcess_events evs (createProcess_start nm p child, m)) in
    filter (λ r, name r ≠ nm) (pool m') = filter (λ r, name r ≠ nm) (pool m)
    ∧ (length (pool m') ≤ length (pool m))%nat
    ∧ same_settings m m'
    ∧ requests (metrics m') = requests (metrics m)
    ∧ hits (metrics m') = hits (metrics m)
    ∧ misses (metrics m') = misses (metrics m)
    ∧ additions (metrics m') = additions (metrics m)
    ∧ evictions (metrics m') = evictions (metrics m).
Proof.
  intros evs nm p child m. cbn zeta.
  pose proof (createProcess_events_latch evs nm p child m) as (_ & Hn & _).
  cbn zeta in Hn. revert Hn.
  induction evs as [|ev evs IH] using rev_ind.
  - intros _. simpl. repeat split; done || reflexivity.
  - rewrite createProcess_events_snoc. intros _.
    pose proof (createProcess_events_latch evs nm p child m) as (_ & Hn0 & _).
    cbn zeta in Hn0. specialize (IH Hn0).
    destruct (createProcess_events evs _) as [cr m1]. cbn [fst snd] in *.
    destruct IH as (Hf & Hlen & Hs & H1 & H2 & H3 & H4 & H5).
    assert (Hrm : let m2 := snd (removeFromPool nm m1) in
              filter (λ r, name r ≠ nm) (pool m2) = filter (λ r, name r ≠ nm) (pool m)
              ∧ (length (pool m2) ≤ length (pool m))%nat
              ∧ same_settings m m2
              ∧ requests (metrics m2) = requests (metrics m)
              ∧ hits (metrics m2) = hits (metrics m)
              ∧ misses (metrics m2) = misses (metrics m)
              ∧ additions (metrics m2) = additions (metrics m)
              ∧ evictions (metrics m2) = evictions (metrics m)).
    { cbn zeta. destruct (removeFromPool_others nm m1) as (Hf2 & Hs2).
      split; [congruence|]. split.
      - etrans; [|exact Hlen]. unfold removeFromPool.
        destruct (list_find _ _) as [[i x]|]; simpl; [apply length_delete_le|done].
      - split; [by etrans|].
        unfold removeFromPool.
        by destruct (list_find _ _) as [[i x]|]; destruct m1. }
    destruct cr as [nm0 p0 ch0 res armed listening calls]. simpl in Hn0. subst nm0.
    pose proof (conj Hf (conj Hlen (conj Hs (conj H1 (conj H2 (conj H3
                  (conj H4 H5))))))) as Hkeep.
    destruct ev, res, armed, listening; simpl; first [exact Hrm | exact Hkeep].
Qed.

(** ** Pool report *)

Lemma formatResourceInfo_alive (r : ResourceInfo) :
  view_alive (formatResourceInfo ProcessManager r) = AliveBool true
  ↔ isResourceAlive ProcessManager r = true.
Proof.
  unfold formatResourceInfo, isResourceAlive. simpl.
  destruct (process r) as [child|]; [|done].
  destruct (killed child); simpl; split; congruence.
Qed.

(** X20. The pool report and the health check of a [ProcessManager] agree:
    [getPoolInfo()] lists the handles in pool order with [poolSize] entries;
    the entries whose [alive] is not [true] (it is [false] for a killed
    child and [undefined] for a handle without child) are as many as
    [healthCheck()] removes; and the report taken after the health check is
    the earlier one without those entries, every entry with [alive]
    [true]. *)
Theorem getPoolInfo_agrees_with_healthCheck :
  ∀ (m m' : Manager) (rep : HealthReport),
    cls m = ProcessManager →
    healthCheck m = Some (rep, m') →
    map view_name (resources (getPoolInfo m)) = map name (pool m)
    ∧ poolSize (getPoolInfo m) = Z.of_nat (length (resources (getPoolInfo m)))
    ∧ deadRemoved rep =
        Z.of_nat (length (filter (λ v, view_alive v ≠ AliveBool true)
                            (resources (getPoolInfo m))))
    ∧ resources (getPoolInfo m') =
        filter (λ v, view_alive v = AliveBool true) (resources (getPoolInfo m))
    ∧ poolSize (getPoolInfo m') = total rep
    ∧ (∀ v, v ∈ resources (getPoolInfo m') → view_alive v = AliveBool true).
Proof.
  intros m m' rep Hc Hh. rewrite healthCheck_eq in Hh.
  injection Hh as <- <-. unfold getPoolInfo. simpl. rewrite Hc.
  assert (Hdead : ∀ l : list ResourceInfo,
            length (filter (dead ProcessManager) l)
            = length (filter (λ v, view_alive v ≠ AliveBool true)
                        (map (formatResourceInfo ProcessManager) l))).
  { induction l as [|x l IH]; [done|]. rewrite map_cons.
    destruct (isResourceAlive ProcessManager x) eqn:E.
    - rewrite (filter_cons_False (dead ProcessManager)) by (unfold dead; congruence).
      rewrite filter_cons_False; [done|]. cbv beta.
      apply formatResourceInfo_alive in E. rewrite E.
      intros Hne. by apply Hne.
    - rewrite (filter_cons_True (dead ProcessManager)) by done.
      rewrite filter_cons_True; [simpl; by rewrite IH|]. cbv beta.
      rewrite formatResourceInfo_alive. congruence. }
  assert (Halive : ∀ l : list ResourceInfo,
            map (formatResourceInfo ProcessManager) (filter (alive ProcessManager) l)
            = filter (λ v, view_alive v = AliveBool true)
                (map (formatResourceInfo ProcessManager) l)).
  { induction l as [|x l IH]; [done|]. rewrite map_cons.
    destruct (isResourceAlive ProcessManager x) eqn:E.
    - rewrite (filter_cons_True (alive ProcessManager)) by done.
      rewrite filter_cons_True
        by (cbv beta; by apply formatResourceInfo_alive).
      simpl. by rewrite IH.
    - rewrite (filter_cons_False (alive ProcessManager)) by (unfold alive; congruence).
      rewrite filter_cons_False; [done|]. cbv beta.
      rewrite formatResourceInfo_alive. congruence. }
  split; [|split; [|split; [|split; [|split]]]].
  - rewrite map_map. apply map_ext. intros r. reflexivity.
  - by rewrite length_map.
  - by rewrite Hdead.
  - apply Halive.
  - done.
  - intros v Hv. rewrite Halive in Hv.
    by apply list_elem_of_filter in Hv as [? _].
Qed.

Lemma getPoolInfo_agrees_with_healthCheck_witness :
  let after := set_pool (filter (alive ProcessManager) (pool manager_DNA))
                 manager_DNA in
  map view_name (resources (getPoolInfo manager_DNA)) = map name (pool manager_DNA)
  ∧ poolSize (getPoolInfo manager_DNA)
    = Z.of_nat (length (resources (getPoolInfo manager_DNA)))
  ∧ 2 = Z.of_nat (length (filter (λ v, view_alive v ≠ AliveBool true)
                            (resources (getPoolInfo manager_DNA))))
  ∧ resources (getPoolInfo after) =
      filter (λ v, view_alive v = AliveBool true) (resources (getPoolInfo manager_DNA))
  ∧ poolSize (getPoolInfo after) = 1
  ∧ (∀ v, v ∈ resources (getPoolInfo after) → view_alive v = AliveBool true).
Proof.
  apply (getPoolInfo_agrees_with_healthCheck manager_DNA
           (set_pool (filter (alive ProcessManager) (pool manager_DNA)) manager_DNA)
           (mkReport 1 2 true)).
  - reflexivity.
  - reflexivity.
Defined.

(** ** The exposition as an encoding *)

Lemma one_line_app a b : one_line (a +:+ b) = one_line a && one_line b.
Proof.
  induction a as [|c a IH]; [done|]. simpl. rewrite IH.
  by destruct (negb _).
Qed.

Lemma one_line_pretty_N_go x s :
  one_line s = true → one_line (pretty_N_go x s) = true.
Proof.
  revert s. induction (N.lt_wf_0 x) as [x _ IH]; intros s Hs.
  assert (x = 0 ∨ 0 < x)%N as [->|Hx] by lia.
  - by rewrite pretty_N_go_0.
  - rewrite pretty_N_go_step by done. apply IH.
    { by apply N.div_lt. }
    simpl. rewrite Hs. unfold pretty_N_char. by repeat case_match.
Qed.

Lemma one_line_pretty (z : Z) : one_line (pretty z) = true.
Proof.
  assert (HN : ∀ n : N, one_line (pretty n) = true).
  { intros n. unfold pretty, pretty_N. case_decide; [done|].
    by apply one_line_pretty_N_go. }
  destruct z as [|q|q]; [done| apply (HN (N.pos q)) |].
  change (pretty (Z.neg q)) with ("-" +:+ pretty (N.pos q)).
  rewrite one_line_app, HN. done.
Qed.

Lemma one_line_split a b s s' :
  one_line a = true → one_line b = true →
  a +:+ String "010" s = b +:+ String "010" s' → a = b ∧ s = s'.
Proof.
  revert b. induction a as [|c a IH]; intros [|d b] Ha Hb H; simpl in *.
  - by simplify_eq.
  - injection H as <- _. by rewrite Ascii.eqb_refl in Hb.
  - injection H as -> _. by rewrite Ascii.eqb_refl in Ha.
  - injection H as -> H.
    apply andb_prop in Ha as [_ Ha]. apply andb_prop in Hb as [_ Hb].
    destruct (IH b Ha Hb H) as [-> ->]. done.
Qed.

Lemma concat_lines_inj (l l' : list string) :
  length l = length l' →
  Forall (λ s, one_line s = true) l → Forall (λ s, one_line s = true) l' →
  String.concat newline l = String.concat newline l' → l = l'.
Proof.
  revert l'. induction l as [|x l IH]; intros [|y l'] Hlen Hl Hl' H;
    try done.
  apply Forall_cons in Hl as [Hx Hl]. apply Forall_cons in Hl' as [Hy Hl'].
  destruct l as [|x2 l], l' as [|y2 l']; try done.
  - simpl in H. by subst.
  - change (x +:+ String "010" (String.concat newline (x2 :: l))
            = y +:+ String "010" (String.concat newline (y2 :: l'))) in H.
    destruct (one_line_split _ _ _ _ Hx Hy H) as [-> Hrest].
    f_equal. apply IH; try done. simpl in *. lia.
Qed.

Lemma metric_lines_one_line (m : Manager) :
  length (metric_lines m) = 21%nat
  ∧ Forall (λ s, one_line s = true) (metric_lines m).
Proof.
  split; [done|].
  unfold metric_lines, addMetric. cbn [app].
  repeat apply Forall_cons_2; try apply Forall_nil_2;
    rewrite ?one_line_app, ?one_line_pretty, ?andb_true_r;
    destruct (cls m); reflexivity.
Qed.

Lemma value_line_inj (c c' : ManagerClass) (nm : string) (v v' : Z) :
  (metric_prefix +:+ "_" +:+ nm) +:+ metric_labels c +:+ " " +:+ pretty v
  = (metric_prefix +:+ "_" +:+ nm) +:+ metric_labels c' +:+ " " +:+ pretty v' →
  c = c' ∧ v = v'.
Proof.
  intros H. apply (inj (String.app _)) in H.
  destruct c, c'.
  - apply (inj (String.app _)) in H. apply (inj (String.app _)) in H.
    by apply (inj pretty) in H as ->.
  - exfalso. unfold metric_labels, getResourceType in H.
    cbn [String.app dquote] in H. discriminate H.
  - exfalso. unfold metric_labels, getResourceType in H.
    cbn [String.app dquote] in H. discriminate H.
  - apply (inj (String.app _)) in H. apply (inj (String.app _)) in H.
    by apply (inj pretty) in H as ->.
Qed.

(** X21. The exposition loses nothing: two managers whose
    [getPrometheusMetrics()] texts are equal have the same class, the same
    six counters and pools of the same size. *)
Theorem exposition_determines_counters :
  ∀ (m m' : Manager),
    getPrometheusMetrics m = getPrometheusMetrics m' →
    cls m = cls m'
    ∧ metrics m = metrics m'
    ∧ length (pool m) = length (pool m').
Proof.
  intros m m' H. unfold getPrometheusMetrics in H.
  destruct (metric_lines_one_line m) as (Hn & Hl).
  destruct (metric_lines_one_line m') as (Hn' & Hl').
  apply concat_lines_inj in H; [|congruence|done|done].
  assert (Hk : ∀ k : nat, metric_lines m !! k = metric_lines m' !! k)
    by (by rewrite H).
  pose proof (Hk 2%nat) as H1. pose proof (Hk 5%nat) as H2.
  pose proof (Hk 8%nat) as H3. pose proof (Hk 11%nat) as H4.
  pose proof (Hk 14%nat) as H5. pose proof (Hk 17%nat) as H6.
  pose proof (Hk 20%nat) as H7.
  apply (inj Some) in H1, H2, H3, H4, H5, H6, H7.
  apply value_line_inj in H1 as [Hc H1].
  apply value_line_inj in H2 as [_ H2].
  apply value_line_inj in H3 as [_ H3].
  apply value_line_inj in H4 as [_ H4].
  apply value_line_inj in H5 as [_ H5].
  apply value_line_inj in H6 as [_ H6].
  apply value_line_inj in H7 as [_ H7].
  split; [done|]. split; [|lia].
  unfold getMetrics in *. revert H1 H2 H3 H4 H5 H6.
  destruct (metrics m), (metrics m'). simpl. congruence.
Qed.

Lemma exposition_determines_counters_witness :
  cls manager_ABC = cls (set_lastRequestTime 77 manager_ABC)
  ∧ metrics manager_ABC = metrics (set_lastRequestTime 77 manager_ABC)
  ∧ length (pool manager_ABC) = length (pool (set_lastRequestTime 77 manager_ABC)).
Proof.
  apply (exposition_determines_counters manager_ABC
           (set_lastRequestTime 77 manager_ABC)).
  reflexivity.
Defined.
